(** * Stock Data Intelligence Dashboard: the enrichment and caching pipeline

    A shallow embedding of [data/processor.py], [data/collector.py],
    [utils/helpers.py], [models/database.py] and of the three data
    endpoints of [api/routes.py], with the properties of the pipeline
    stated and proved over it.

    Conventions of the embedding.
    - A Python float is an extended rational [fval]: a finite value is an
      exact rational (rounding is not modelled), [PInf], [NInf] and [NaN]
      are the IEEE 754 specials with their arithmetic.  Zero is unsigned:
      prices are never [-0.0].
    - A calendar date is its proleptic ordinal, an integer.
    - A pandas DataFrame is the list of its column names and the list of its
      rows.  The two provider columns [dividends] and [stock_splits], which
      nothing in the pipeline reads, are left out.
    - A standard deviation is the square root of a rational; wherever the
      source computes one, the embedding carries its square, which
      determines it (a standard deviation is never negative).
    - Log messages and the detail strings of HTTP errors are left out; an
      HTTP error is its status code. *)

From Stdlib Require Import QArith Qcanon Qround.
From stdpp Require Import base decidable option list numbers strings gmap sorting.

Local Open Scope Z_scope.

(** ** Floats *)

Inductive fval : Type :=
  | Fin (q : Qc)
  | PInf
  | NInf
  | NaN.

Global Instance fval_eq_dec : EqDecision fval.
Proof. solve_decision. Defined.

Definition Qc0 : Qc := Q2Qc 0.
Definition Qc1 : Qc := Q2Qc 1.

Definition of_Z (z : Z) : fval := Fin (Q2Qc (inject_Z z)).
Definition of_nat (n : nat) : fval := of_Z (Z.of_nat n).

(** Sign of a finite value: [Lt] negative, [Eq] zero, [Gt] positive. *)
Definition Qc_sign (q : Qc) : comparison := (q ?= Qc0)%Qc.

Definition isna (x : fval) : bool :=
  match x with NaN => true | _ => false end.

Definition notna (x : fval) : bool := negb (isna x).

Definition isfinite (x : fval) : bool :=
  match x with Fin _ => true | _ => false end.

Definition fneg (x : fval) : fval :=
  match x with
  | Fin q => Fin (- q)%Qc
  | PInf => NInf
  | NInf => PInf
  | NaN => NaN
  end.

Definition fadd (x y : fval) : fval :=
  match x, y with
  | NaN, _ | _, NaN => NaN
  | Fin a, Fin b => Fin (a + b)%Qc
  | PInf, NInf | NInf, PInf => NaN
  | PInf, _ | _, PInf => PInf
  | NInf, _ | _, NInf => NInf
  end.

Definition fsub (x y : fval) : fval := fadd x (fneg y).

Definition fmul (x y : fval) : fval :=
  match x, y with
  | NaN, _ | _, NaN => NaN
  | Fin a, Fin b => Fin (a * b)%Qc
  | Fin a, PInf | PInf, Fin a =>
      match Qc_sign a with Eq => NaN | Gt => PInf | Lt => NInf end
  | Fin a, NInf | NInf, Fin a =>
      match Qc_sign a with Eq => NaN | Gt => NInf | Lt => PInf end
  | PInf, PInf | NInf, NInf => PInf
  | PInf, NInf | NInf, PInf => NInf
  end.

(** Float division as numpy performs it on a float64 column: a division by
    zero is no error, it yields an infinity, or NaN for [0 / 0]. *)
Definition fdiv (x y : fval) : fval :=
  match x, y with
  | NaN, _ | _, NaN => NaN
  | Fin a, Fin b =>
      match Qc_sign b with
      | Eq => match Qc_sign a with Eq => NaN | Gt => PInf | Lt => NInf end
      | _ => Fin (a / b)%Qc
      end
  | Fin _, (PInf | NInf) => Fin Qc0
  | PInf, Fin b => match Qc_sign b with Lt => NInf | _ => PInf end
  | NInf, Fin b => match Qc_sign b with Lt => PInf | _ => NInf end
  | (PInf | NInf), (PInf | NInf) => NaN
  end.

(** [x > y] on floats; any comparison with NaN is false. *)
Definition fgt (x y : fval) : bool :=
  match x, y with
  | NaN, _ | _, NaN => false
  | Fin a, Fin b => bool_decide (b < a)%Qc
  | PInf, PInf => false
  | PInf, _ => true
  | _, PInf => false
  | NInf, _ => false
  | Fin _, NInf => true
  end.

Definition fmax (x y : fval) : fval := if fgt y x then y else x.
Definition fmin (x y : fval) : fval := if fgt x y then y else x.

(** [Series.fillna(0)] on one cell. *)
Definition fillna0 (x : fval) : fval :=
  match x with NaN => Fin Qc0 | _ => x end.

(** ** Series reductions, as pandas computes them (NaN cells are skipped) *)

Definition dropna (l : list fval) : list fval := filter (λ x, notna x = true) l.

Definition fsum (l : list fval) : fval := foldr fadd (Fin Qc0) l.

(** [Series.mean()]: the mean of the cells that are not NaN, NaN if none. *)
Definition fmean (l : list fval) : fval :=
  match dropna l with
  | [] => NaN
  | v => fdiv (fsum v) (of_nat (length v))
  end.

(** [Series.max()] and [Series.min()]. *)
Definition series_max (l : list fval) : fval :=
  match dropna l with
  | [] => NaN
  | x :: v => foldl fmax x v
  end.

Definition series_min (l : list fval) : fval :=
  match dropna l with
  | [] => NaN
  | x :: v => foldl fmin x v
  end.

(** Square of the sample standard deviation ([ddof = 1]) of the cells that
    are not NaN; NaN when fewer than two remain. *)
Definition fvar (l : list fval) : fval :=
  match dropna l with
  | [] | [_] => NaN
  | v =>
      let m := fdiv (fsum v) (of_nat (length v)) in
      fdiv (fsum ((λ x, fmul (fsub x m) (fsub x m)) <$> v))
           (of_nat (length v - 1))
  end.

(** The window of [rolling(window=w, min_periods=1)] that ends at index [i]:
    the cells [max 0 (i + 1 - w) .. i]. *)
Definition window {A} (w i : nat) (l : list A) : list A :=
  drop (S i - w) (take (S i) l).

Definition rolling {A B} (w : nat) (f : list A → B) (l : list A) : list B :=
  (λ i, f (window w i l)) <$> seq 0 (length l).

Definition rolling_mean (w : nat) (l : list fval) : list fval :=
  rolling w fmean l.

Definition rolling_var (w : nat) (l : list fval) : list fval :=
  rolling w fvar l.

(** ** DataFrames *)

Module Row.
Record t : Type := mk {
  date : Z;
  open : fval;
  high : fval;
  low : fval;
  close : fval;
  volume : fval;
  daily_return : fval;
  ma_7 : fval;
  (** carried as its square, see the conventions *)
  volatility_score : fval
}.
End Row.

Global Instance Row_eq_dec : EqDecision Row.t.
Proof. solve_decision. Defined.

(** The float columns of a frame. *)
Inductive Col : Type :=
  | c_open | c_high | c_low | c_close | c_volume
  | c_daily_return | c_ma_7 | c_volatility_score.

Global Instance Col_eq_dec : EqDecision Col.
Proof. solve_decision. Defined.

Definition col_name (c : Col) : string :=
  match c with
  | c_open => "open" | c_high => "high" | c_low => "low"
  | c_close => "close" | c_volume => "volume"
  | c_daily_return => "daily_return" | c_ma_7 => "ma_7"
  | c_volatility_score => "volatility_score"
  end.

Definition get_col (c : Col) (r : Row.t) : fval :=
  match c with
  | c_open => Row.open r | c_high => Row.high r | c_low => Row.low r
  | c_close => Row.close r | c_volume => Row.volume r
  | c_daily_return => Row.daily_return r | c_ma_7 => Row.ma_7 r
  | c_volatility_score => Row.volatility_score r
  end.

Definition set_col (c : Col) (v : fval) (r : Row.t) : Row.t :=
  let '(Row.mk d o h l cl vo dr ma vs) := r in
  match c with
  | c_open => Row.mk d v h l cl vo dr ma vs
  | c_high => Row.mk d o v l cl vo dr ma vs
  | c_low => Row.mk d o h v cl vo dr ma vs
  | c_close => Row.mk d o h l v vo dr ma vs
  | c_volume => Row.mk d o h l cl v dr ma vs
  | c_daily_return => Row.mk d o h l cl vo v ma vs
  | c_ma_7 => Row.mk d o h l cl vo dr v vs
  | c_volatility_score => Row.mk d o h l cl vo dr ma v
  end.

Definition all_cols : list Col :=
  [c_open; c_high; c_low; c_close; c_volume;
   c_daily_return; c_ma_7; c_volatility_score].

Record DataFrame : Type := mkDF {
  columns : list string;
  rows : list Row.t
}.

(** ['name' in df.columns] *)
Definition has_col (name : string) (df : DataFrame) : bool :=
  bool_decide (name ∈ columns df).

(** [df.empty]: one of the two axes has length zero. *)
Definition empty (df : DataFrame) : bool :=
  match columns df, rows df with
  | [], _ | _, [] => true
  | _, _ => false
  end.

(** [df[c]] *)
Definition series (c : Col) (df : DataFrame) : list fval :=
  get_col c <$> rows df.

(** [df[c] = vals]: the column is created when the frame lacks it. *)
Definition assign (c : Col) (vals : list fval) (df : DataFrame) : DataFrame :=
  {| columns := if has_col (col_name c) df then columns df
                else columns df ++ [col_name c];
     rows := zip_with (set_col c) vals (rows df) |}.

Definition with_rows (df : DataFrame) (rs : list Row.t) : DataFrame :=
  {| columns := columns df; rows := rs |}.

(** [df.tail(n)] *)
Definition tail {A} (n : nat) (l : list A) : list A :=
  drop (length l - n) l.

(** A stable insertion sort, ascending in an integer key: rows of equal key
    keep their order. *)
Fixpoint insert_by {A} (key : A → Z) (r : A) (l : list A) : list A :=
  match l with
  | [] => [r]
  | x :: l' =>
      if bool_decide (key r ≤ key x) then r :: l
      else x :: insert_by key r l'
  end.

Definition sort_by {A} (key : A → Z) (l : list A) : list A :=
  foldr (insert_by key) [] l.

(** [df.sort_values("date")]: ascending by date. *)
Definition sort_values_date (df : DataFrame) : DataFrame :=
  with_rows df (sort_by Row.date (rows df)).

(** ** data/processor.py: StockDataProcessor *)

(** [Series.ffill()]: a NaN cell takes the last value seen before it. *)
Fixpoint ffill_from (last : fval) (l : list fval) : list fval :=
  match l with
  | [] => []
  | x :: l' =>
      let y := if isna x then last else x in
      y :: ffill_from y l'
  end.

Definition ffill (l : list fval) : list fval := ffill_from NaN l.

(** [Series.bfill()]: a NaN cell takes the next value that follows it. *)
Fixpoint bfill (l : list fval) : list fval :=
  match l with
  | [] => []
  | x :: l' =>
      let t := bfill l' in
      (if isna x then default NaN (head t) else x) :: t
  end.

Definition map_series (c : Col) (f : list fval → list fval)
    (df : DataFrame) : DataFrame :=
  if has_col (col_name c) df then assign c (f (series c df)) df else df.

(** A row all of whose cells are NaN; a date is never NaN. *)
Definition all_na (df : DataFrame) (r : Row.t) : bool :=
  negb (has_col "date" df) &&
  forallb (λ c, negb (has_col (col_name c) df) || isna (get_col c r)) all_cols.

Definition price_columns : list Col :=
  [c_open; c_high; c_low; c_close; c_volume].

Definition clean_data (df : option DataFrame) : option DataFrame :=
  match df with
  | None => None
  | Some df =>
      if empty df then Some df else
      (* remove rows with all NaN values *)
      let df1 := with_rows df (filter (λ r, all_na df r = false) (rows df)) in
      (* forward fill the price columns *)
      let df2 := foldl (λ d c, map_series c ffill d) df1 price_columns in
      (* backward fill whatever is still NaN *)
      let df3 := foldl (λ d c, map_series c bfill d) df2 all_cols in
      (* remove rows where close is 0 or negative *)
      let df4 :=
        if has_col "close" df3
        then with_rows df3
               (filter (λ r, fgt (Row.close r) (Fin Qc0) = true) (rows df3))
        else df3 in
      (* sort by date *)
      let df5 := if has_col "date" df4 then sort_values_date df4 else df4 in
      Some df5
  end.

Definition calculate_daily_return (df : DataFrame) : DataFrame :=
  if has_col "open" df && has_col "close" df then
    assign c_daily_return
      ((λ r, fillna0 (fdiv (fsub (Row.close r) (Row.open r)) (Row.open r)))
         <$> rows df)
      df
  else df.

(** The column written is [ma_<window>]; the pipeline calls this with the
    window 7 only, and the frame model has the one column [ma_7]. *)
Definition calculate_moving_average (df : DataFrame) (window : nat) : DataFrame :=
  if has_col "close" df then
    assign c_ma_7 (rolling_mean window (series c_close df)) df
  else df.

Definition tail_252 (df : DataFrame) : DataFrame :=
  if bool_decide (252 ≤ length (rows df))%nat
  then with_rows df (tail 252 (rows df)) else df.

Record HighLow : Type := mkHighLow { high_52w : fval; low_52w : fval }.

Definition calculate_52week_high_low (df : DataFrame) : HighLow :=
  if has_col "high" df && has_col "low" df then
    let df_52w := tail_252 df in
    {| high_52w := series_max (series c_high df_52w);
       low_52w := series_min (series c_low df_52w) |}
  else {| high_52w := Fin Qc0; low_52w := Fin Qc0 |}.

(** The rolling standard deviation of the daily returns times [sqrt 252];
    the square of that is the rolling variance times 252. *)
Definition calculate_volatility_score (df : DataFrame) (window : nat) : DataFrame :=
  let df_result :=
    if has_col "daily_return" df then df else calculate_daily_return df in
  if has_col "daily_return" df_result then
    assign c_volatility_score
      ((λ v, fillna0 (fmul v (of_Z 252)))
         <$> rolling_var window (series c_daily_return df_result))
      df_result
  else df_result.

Definition process_data (df : option DataFrame) : option DataFrame :=
  match df with
  | None => None
  | Some d =>
      if empty d then df else
      match clean_data df with
      | None => None
      | Some df_processed =>
          let df_processed := calculate_daily_return df_processed in
          let df_processed := calculate_moving_average df_processed 7 in
          let df_processed := calculate_volatility_score df_processed 30 in
          Some df_processed
      end
  end.

Record SummaryStats : Type := mkSummary {
  s_high_52w : fval;
  s_low_52w : fval;
  s_avg_close : fval;
  s_current_close : fval;
  s_total_records : nat;
  s_date_range : option Z * option Z
}.

(** [None] is the empty dictionary. *)
Definition get_summary_stats (df : option DataFrame) : option SummaryStats :=
  match df with
  | None => None
  | Some df =>
      if empty df then None else
      let week52_stats := calculate_52week_high_low df in
      let avg_close :=
        if has_col "close" df then fmean (series c_close df) else Fin Qc0 in
      let current_close :=
        match last (rows df) with
        | Some latest =>
            if has_col "close" df && notna (Row.close latest)
            then Row.close latest else Fin Qc0
        | None => Fin Qc0
        end in
      let dates := Row.date <$> rows df in
      let date_range :=
        match dates with
        | d :: ds =>
            if has_col "date" df
            then (Some (foldl Z.min d ds), Some (foldl Z.max d ds))
            else (None, None)
        | [] => (None, None)
        end in
      Some {| s_high_52w := high_52w week52_stats;
              s_low_52w := low_52w week52_stats;
              s_avg_close := avg_close;
              s_current_close := current_close;
              s_total_records := length (rows df);
              s_date_range := date_range |}
  end.

(** ** utils/helpers.py *)

(** [round(x, ndigits)]: to the nearest multiple of [10^-ndigits], a tie
    going to the even one; NaN and the infinities are returned as they are. *)
Definition round_half_even (q : Qc) : Z :=
  let f := Qfloor q in
  match (q - Q2Qc (inject_Z f) ?= Q2Qc (1 # 2))%Qc with
  | Lt => f
  | Gt => f + 1
  | Eq => if Z.even f then f else f + 1
  end.

Definition round_nd (x : fval) (ndigits : nat) : fval :=
  match x with
  | Fin q =>
      let scale := Q2Qc (inject_Z (10 ^ Z.of_nat ndigits)) in
      Fin (Q2Qc (inject_Z (round_half_even (q * scale)%Qc)) / scale)%Qc
  | _ => x
  end.

(** The Pearson coefficient [r] is a quotient by a square root.  It is
    carried as its sign and its square, which determine it. *)
Record Corr : Type := mkCorr { corr_sign : Z; corr_sq : Qc }.

Global Instance Corr_eq_dec : EqDecision Corr.
Proof. solve_decision. Defined.

(** The float [0.0]. *)
Definition corr_zero : Corr := {| corr_sign := 0; corr_sq := Qc0 |}.

(** [pd.merge(df1[['date','close']], df2[['date','close']], on='date',
    how='inner')]: the pairs of closes of the rows of equal date, in the
    order of the left frame. *)
Definition merge_on_date (l1 l2 : list Row.t) : list (fval * fval) :=
  r1 ← l1; r2 ← l2;
  if bool_decide (Row.date r1 = Row.date r2)
  then [(Row.close r1, Row.close r2)] else [].

Definition finite_pair (p : fval * fval) : option (Qc * Qc) :=
  match p with
  | (Fin a, Fin b) => Some (a, b)
  | _ => None
  end.

Definition Qcsum (l : list Qc) : Qc := foldr Qcplus Qc0 l.

(** [Series.corr], Pearson, on aligned finite closes; [None] is NaN, the
    outcome of a zero variance. *)
Definition pearson (ps : list (Qc * Qc)) : option Corr :=
  let n := Q2Qc (inject_Z (Z.of_nat (length ps))) in
  let mx := (Qcsum (fst <$> ps) / n)%Qc in
  let my := (Qcsum (snd <$> ps) / n)%Qc in
  let sxy := Qcsum ((λ p, (p.1 - mx) * (p.2 - my))%Qc <$> ps) in
  let sxx := Qcsum ((λ p, (p.1 - mx) * (p.1 - mx))%Qc <$> ps) in
  let syy := Qcsum ((λ p, (p.2 - my) * (p.2 - my))%Qc <$> ps) in
  if bool_decide (sxx = Qc0) || bool_decide (syy = Qc0) then None
  else Some {| corr_sign := match Qc_sign sxy with
                            | Lt => -1 | Eq => 0 | Gt => 1
                            end;
               corr_sq := (sxy * sxy / (sxx * syy))%Qc |}.

(** [max(-1.0, min(1.0, result))] *)
Definition clamp (r : Corr) : Corr :=
  if bool_decide (Qc1 < corr_sq r)%Qc
  then {| corr_sign := corr_sign r; corr_sq := Qc1 |} else r.

(** From the merged frame on: the two length checks around the removal of
    the NaN rows, the coefficient, and the clamp. *)
Definition correlation_of_merged (merged : list (fval * fval)) : Corr :=
  if bool_decide (length merged < 2)%nat then corr_zero else
  (* remove any NaN values *)
  let merged :=
    filter (λ p, (notna p.1 && notna p.2) = true) merged in
  if bool_decide (length merged < 2)%nat then corr_zero else
  (* a close that is infinite makes the coefficient NaN *)
  match mapM finite_pair merged with
  | None => corr_zero
  | Some ps =>
      match pearson ps with
      | None => corr_zero
      | Some r => clamp r
      end
  end.

Definition calculate_correlation (df1 df2 : option DataFrame) : Corr :=
  match df1, df2 with
  | Some df1, Some df2 =>
      if empty df1 || empty df2 then corr_zero else
      if negb (has_col "date" df1) || negb (has_col "close" df1)
      then corr_zero else
      if negb (has_col "date" df2) || negb (has_col "close" df2)
      then corr_zero else
      correlation_of_merged (merge_on_date (rows df1) (rows df2))
  | _, _ => corr_zero
  end.

(** The dictionary of performance metrics.  Its entry [volatility], the
    rounding to four decimals of a square root, is left out. *)
Record Metrics : Type := mkMetrics {
  total_return_pct : fval;
  avg_daily_return : fval;
  max_price : fval;
  min_price : fval;
  avg_price : fval
}.

(** [None] is the empty dictionary, returned for an empty frame and when
    the lookup of the [close] column raises. *)
Definition calculate_performance_metrics (df : option DataFrame)
    : option Metrics :=
  match df with
  | None => None
  | Some df =>
      if empty df then None else
      if negb (has_col "close" df) then None else
      match rows df, last (rows df) with
      | first :: _, Some latest =>
          let first_close := Row.close first in
          let last_close := Row.close latest in
          let total_return :=
            if fgt first_close (Fin Qc0)
            then fmul (fdiv (fsub last_close first_close) first_close)
                      (of_Z 100)
            else Fin Qc0 in
          let avg_daily_return :=
            if has_col "daily_return" df
            then fmean (series c_daily_return df) else Fin Qc0 in
          Some {| total_return_pct := round_nd total_return 2;
                  avg_daily_return := round_nd avg_daily_return 4;
                  max_price := series_max (series c_close df);
                  min_price := series_min (series c_close df);
                  avg_price := fmean (series c_close df) |}
      | _, _ => None
      end
  end.

(** ** models/database.py: the table [stock_data] *)

Module StockData.
Record t : Type := mk {
  symbol : string;
  date : Z;
  open : fval;
  high : fval;
  low : fval;
  close : fval;
  (** nullable columns *)
  volume : option Z;
  daily_return : option fval;
  ma_7 : option fval;
  volatility_score : option fval
}.

(** The columns of [UniqueConstraint('symbol', 'date')]. *)
Definition key (r : t) : string * Z := (symbol r, date r).
End StockData.

Global Instance StockData_eq_dec : EqDecision StockData.t.
Proof. solve_decision. Defined.

(** The table, in insertion order. *)
Abbreviation Store := (list StockData.t).

Inductive DbError : Type :=
  | IntegrityError
  | OperationalError.

(** [db.bulk_save_objects(new_records); db.commit()].  The transaction
    commits all the rows or, when the engine fails or a row repeats a
    [(symbol, date)] already in the table or in the batch, none:
    the caller rolls back.  [fault] is a failure of the engine itself. *)
Definition bulk_save (fault : option DbError) (store : Store)
    (new_records : list StockData.t) : DbError + Store :=
  match fault with
  | Some e => inl e
  | None =>
      if bool_decide (NoDup (StockData.key <$> new_records)) &&
         forallb (λ r, bool_decide
                         (StockData.key r ∉ StockData.key <$> store))
                 new_records
      then inr (store ++ new_records)
      else inl IntegrityError
  end.

(** ** Strings: [str.upper] and [str.strip], on ASCII *)

Definition upper_ascii (c : Ascii.ascii) : Ascii.ascii :=
  let n := Ascii.nat_of_ascii c in
  if (97 <=? n)%nat && (n <=? 122)%nat then Ascii.ascii_of_nat (n - 32) else c.

Fixpoint upper (s : string) : string :=
  match s with
  | EmptyString => EmptyString
  | String c s' => String (upper_ascii c) (upper s')
  end.

Definition isspace (c : Ascii.ascii) : bool :=
  let n := Ascii.nat_of_ascii c in
  ((9 <=? n)%nat && (n <=? 13)%nat) || ((28 <=? n)%nat && (n <=? 32)%nat).

Fixpoint lstrip (s : string) : string :=
  match s with
  | EmptyString => EmptyString
  | String c s' => if isspace c then lstrip s' else s
  end.

Fixpoint rstrip (s : string) : string :=
  match s with
  | EmptyString => EmptyString
  | String c s' =>
      let t := rstrip s' in
      if isspace c && bool_decide (t = EmptyString) then EmptyString
      else String c t
  end.

Definition strip (s : string) : string := rstrip (lstrip s).

Definition endswith (s suffix : string) : bool :=
  bool_decide
    (String.substring (String.length s - String.length suffix)
               (String.length suffix) s = suffix) &&
  (String.length suffix <=? String.length s)%nat.

(** [str.isascii]: every character is below 128.  On such a string [upper]
    and [strip] are Python's [str.upper] and [str.strip]; on others Python
    also maps and strips characters outside ASCII, which [upper] and
    [strip] leave alone. *)
Fixpoint isascii (s : string) : bool :=
  match s with
  | EmptyString => true
  | String c s' => (Ascii.nat_of_ascii c <? 128)%nat && isascii s'
  end.

(** ** data/collector.py: StockDataCollector *)

Definition INDIAN_STOCKS : list (string * string) :=
  [("TCS", "TCS.NS"); ("INFY", "INFY.NS"); ("RELIANCE", "RELIANCE.NS");
   ("HDFCBANK", "HDFCBANK.NS"); ("ICICIBANK", "ICICIBANK.NS");
   ("WIPRO", "WIPRO.NS"); ("HCLTECH", "HCLTECH.NS")].

Fixpoint dict_get {V} (k : string) (d : list (string * V)) : option V :=
  match d with
  | [] => None
  | (k', v) :: d' => if bool_decide (k = k') then Some v else dict_get k d'
  end.

Definition available_companies : list string := INDIAN_STOCKS.*1.

Definition get_available_companies : list string := available_companies.

(** One bar as the provider returns it. *)
Record Bar : Type := mkBar {
  b_date : Z;
  b_open : fval;
  b_high : fval;
  b_low : fval;
  b_close : fval;
  b_volume : fval
}.

(** The frame the collector builds from the provider's bars: the index is
    reset into the column [date] and the names are lowercased.  The derived
    columns do not exist yet; their cells are NaN. *)
Definition row_of_bar (b : Bar) : Row.t :=
  Row.mk (b_date b) (b_open b) (b_high b) (b_low b) (b_close b) (b_volume b)
         NaN NaN NaN.

Definition frame_of_bars (bars : list Bar) : DataFrame :=
  {| columns := ["date"; "open"; "high"; "low"; "close"; "volume"];
     rows := row_of_bar <$> bars |}.

(** What is outside the program: the day, the provider
    ([yf.Ticker(identifier).history(...)] for a period; [None] when the call
    raises) and a failure of the database engine at commit. *)
Record Env : Type := mkEnv {
  today : Z;
  history : string → string → option (list Bar);
  db_fault : option DbError
}.

(** What the program changes: the table and, as a record of the calls made
    to the provider, the identifiers requested. *)
Record World : Type := mkWorld {
  store : Store;
  fetch_log : list string
}.

Definition log_fetch (identifier : string) (w : World) : World :=
  {| store := store w; fetch_log := fetch_log w ++ [identifier] |}.

Definition set_store (s : Store) (w : World) : World :=
  {| store := s; fetch_log := fetch_log w |}.

(** The period the routes construct the collector with. *)
Definition collector_period : string := "1y".

Definition fetch_stock_data (env : Env) (w : World) (symbol : string)
    (period : option string) : World * option DataFrame :=
  let yf_symbol := default symbol (dict_get (upper symbol) INDIAN_STOCKS) in
  let fetch_period :=
    match period with
    | Some p => if bool_decide (p = EmptyString) then collector_period else p
    | None => collector_period
    end in
  let w := log_fetch yf_symbol w in
  match history env yf_symbol fetch_period with
  | None => (w, None)
  | Some bars =>
      (* fallback: retry the plain symbol when the NSE one gave nothing *)
      let '(w, result) :=
        match bars with
        | [] =>
            if endswith yf_symbol ".NS"
            then (log_fetch symbol w, history env symbol fetch_period)
            else (w, Some bars)
        | _ => (w, Some bars)
        end in
      match result with
      | None => (w, None)
      | Some [] => (w, None)
      | Some bars => (w, Some (frame_of_bars bars))
      end
  end.

(** [fetch_multiple_stocks]: the frames of the symbols that gave one, by
    symbol; a symbol listed twice is fetched twice and its entry is
    overwritten. *)
Definition fetch_multiple_stocks (env : Env) (w : World)
    (symbols : list string) (period : option string)
    : World * gmap string DataFrame :=
  foldl (λ '(w, data_dict) symbol,
           let '(w, df) := fetch_stock_data env w symbol period in
           match df with
           | Some df => (w, <[symbol := df]> data_dict)
           | None => (w, data_dict)
           end)
        (w, ∅) symbols.

(** ** api/routes.py *)

Inductive Response (A : Type) : Type :=
  | Success (body : A)
  | HTTPException (status_code : Z).

Arguments Success {A} body.
Arguments HTTPException {A} status_code.

(** The frame built from the rows of a query: [None] in a nullable column
    reads as NaN. *)
Definition record_columns : list string :=
  ["date"; "open"; "high"; "low"; "close"; "volume";
   "daily_return"; "ma_7"; "volatility_score"].

Definition row_of_record (r : StockData.t) : Row.t :=
  Row.mk (StockData.date r) (StockData.open r) (StockData.high r)
         (StockData.low r) (StockData.close r)
         (from_option of_Z NaN (StockData.volume r))
         (default NaN (StockData.daily_return r))
         (default NaN (StockData.ma_7 r))
         (default NaN (StockData.volatility_score r)).

Definition frame_of_records (records : list StockData.t) : DataFrame :=
  {| columns := record_columns; rows := row_of_record <$> records |}.

(** [int(x)] truncates towards zero and raises on an infinity. *)
Definition int_of_float (x : fval) : option Z :=
  match x with
  | Fin q => Some (Z.quot (Qnum q) (Z.pos (Qden q)))
  | _ => None
  end.

(** [float(x) if pd.notna(x) else None] *)
Definition nullable (x : fval) : option fval :=
  if notna x then Some x else None.

(** The [StockData(...)] built from one row of the fetched frame; [None]
    when [int] raises. *)
Definition record_of_row (symbol : string) (row : Row.t)
    : option StockData.t :=
  volume ← (if notna (Row.volume row)
            then Some <$> int_of_float (Row.volume row)
            else Some None);
  Some (StockData.mk symbol (Row.date row) (Row.open row) (Row.high row)
          (Row.low row) (Row.close row) volume
          (nullable (Row.daily_return row)) (nullable (Row.ma_7 row))
          (nullable (Row.volatility_score row))).

Record SeriesBody : Type := mkSeriesBody {
  body_symbol : string;
  body_days : nat;
  (** the dates are sent as [YYYY-MM-DD] strings *)
  body_data : DataFrame
}.

(** The rows of a symbol from a date on, as the table holds them. *)
Definition rows_since (symbol : string) (cutoff_date : Z) (s : Store)
    : list StockData.t :=
  filter (λ r, StockData.symbol r = symbol ∧ cutoff_date ≤ StockData.date r) s.

(** The query of [get_stock_data]: those rows, latest first. *)
Definition query_since (symbol : string) (cutoff_date : Z) (s : Store)
    : list StockData.t :=
  sort_by (λ r, - StockData.date r) (rows_since symbol cutoff_date s).

(** The rows of a symbol, oldest first. *)
Definition query_all (symbol : string) (s : Store) : list StockData.t :=
  sort_by StockData.date (filter (λ r, StockData.symbol r = symbol) s).

(** Lines 118 to 152: the rows of the fetched frame whose date the query
    did not return are written in one transaction.  [inl e] is an exception
    that leaves the block. *)
Inductive Raised : Type :=
  | RaisedDb (e : DbError)
  | RaisedOverflow.

Definition save_new_records (env : Env) (w : World) (symbol : string)
    (db_records : list StockData.t) (df : DataFrame) : Raised + World :=
  (* existing dates, to avoid duplicates *)
  let existing_dates : gset Z :=
    list_to_set (StockData.date <$> db_records) in
  (* only new records *)
  match mapM (record_of_row symbol)
             (filter (λ row, Row.date row ∉ existing_dates) (rows df)) with
  | None => inl RaisedOverflow
  | Some [] => inr w
  | Some new_records =>
      match bulk_save (db_fault env) (store w) new_records with
      | inr s => inr (set_store s w)
      | inl IntegrityError => inr w
      | inl e => inl (RaisedDb e)
      end
  end.

Definition get_stock_data (env : Env) (w : World) (symbol : string)
    (days : Z) : World * Response SeriesBody :=
  (* Query(30, ge=1, le=365) *)
  if negb (bool_decide (1 ≤ days ≤ 365)) then (w, HTTPException 422) else
  if bool_decide (symbol = EmptyString) then (w, HTTPException 400) else
  let symbol := strip (upper symbol) in
  if bool_decide (symbol = EmptyString) then (w, HTTPException 400) else
  if negb (bool_decide (symbol ∈ get_available_companies))
  then (w, HTTPException 404) else
  let cutoff_date := today env - days in
  let db_records := query_since symbol cutoff_date (store w) in
  if bool_decide (db_records ≠ []) &&
     bool_decide (days ≤ Z.of_nat (length db_records))
  then
    (* case 1: the table has sufficient data *)
    let df := sort_values_date (frame_of_records db_records) in
    (w, Success {| body_symbol := symbol;
                   body_days := length (rows df);
                   body_data := df |})
  else
    (* case 2: fetch and save *)
    let '(w, fetched) := fetch_stock_data env w symbol None in
    match fetched with
    | None => (w, HTTPException 404)
    | Some df =>
        if empty df then (w, HTTPException 404) else
        match process_data (Some df) with
        | None => (w, HTTPException 500)
        | Some df =>
            let df := sort_values_date df in
            let df :=
              if bool_decide (days < Z.of_nat (length (rows df)))
              then with_rows df (tail (Z.to_nat days) (rows df)) else df in
            match save_new_records env w symbol db_records df with
            | inl _ => (w, HTTPException 500)
            | inr w =>
                (w, Success {| body_symbol := symbol;
                               body_days := length (rows df);
                               body_data := df |})
            end
        end
    end.

Record SummaryBody : Type := mkSummaryBody {
  sum_symbol : string;
  sum_high_52w : fval;
  sum_low_52w : fval;
  sum_avg_close : fval;
  sum_current_close : fval
}.

Definition get_stock_summary (w : World) (symbol : string)
    : Response SummaryBody :=
  let symbol_upper := upper symbol in
  let records := query_all symbol_upper (store w) in
  match records with
  | [] => HTTPException 404
  | _ =>
      let df :=
        {| columns := ["date"; "close"];
           rows := (λ r, Row.mk (StockData.date r) NaN NaN NaN
                           (StockData.close r) NaN NaN NaN NaN) <$> records |} in
      if empty df || negb (has_col "close" df) then HTTPException 404 else
      match last (series c_close df) with
      | None => HTTPException 500
      | Some current =>
          Success {| sum_symbol := symbol_upper;
                     sum_high_52w := series_max (series c_close df);
                     sum_low_52w := series_min (series c_close df);
                     sum_avg_close := fmean (series c_close df);
                     sum_current_close := current |}
      end
  end.

(** [metrics.get('total_return_pct', 0)] *)
Definition get_total_return_pct (metrics : option Metrics) : fval :=
  from_option total_return_pct (Fin Qc0) metrics.

Definition fabs (x : fval) : fval :=
  match x with
  | Fin q => match Qc_sign q with Lt => Fin (- q)%Qc | _ => x end
  | NInf => PInf
  | _ => x
  end.

(** [r > t] for a coefficient carried as sign and square. *)
Definition corr_gt (r : Corr) (t : Qc) : bool :=
  match Qc_sign t with
  | Lt => bool_decide (0 ≤ corr_sign r) || bool_decide (corr_sq r < t * t)%Qc
  | _ => bool_decide (0 < corr_sign r) && bool_decide (t * t < corr_sq r)%Qc
  end.

Record Insights : Type := mkInsights {
  better_performer : string;
  return_difference : fval;
  correlation_interpretation : string
}.

Definition insights (symbol1_upper symbol2_upper : string)
    (metrics1 metrics2 : option Metrics) (correlation : Corr) : Insights :=
  {| better_performer :=
       if fgt (get_total_return_pct metrics1) (get_total_return_pct metrics2)
       then symbol1_upper else symbol2_upper;
     return_difference :=
       round_nd (fabs (fsub (get_total_return_pct metrics1)
                            (get_total_return_pct metrics2))) 2;
     correlation_interpretation :=
       if corr_gt correlation (Q2Qc (7 # 10)) then "Strong positive"
       else if corr_gt correlation (Q2Qc (3 # 10)) then "Moderate positive"
       else if corr_gt correlation (- Q2Qc (3 # 10))%Qc then "Weak"
       else "Negative" |}.

Record SymbolMetrics : Type := mkSymbolMetrics {
  sm_metrics : option Metrics;
  sm_high_52w : fval;
  sm_low_52w : fval;
  sm_avg_close : fval
}.

(** The coefficient is sent rounded to four decimals; the record holds it
    before the rounding. *)
Record Comparison : Type := mkComparison {
  cmp_symbol1 : string;
  cmp_symbol2 : string;
  cmp_correlation : Corr;
  cmp_symbol1_metrics : SymbolMetrics;
  cmp_symbol2_metrics : SymbolMetrics;
  cmp_insights : Insights
}.

(** The table when it holds 50 rows of the symbol, a fresh fetch otherwise. *)
Definition get_stock_df (env : Env) (w : World) (sym : string)
    : World * Response DataFrame :=
  let db_data := query_all sym (store w) in
  if bool_decide (db_data ≠ []) && bool_decide (50 ≤ length db_data)%nat
  then (w, Success (frame_of_records db_data))
  else
    let '(w, fetched) := fetch_stock_data env w sym (Some "1y"%string) in
    match fetched with
    | None => (w, HTTPException 404)
    | Some df =>
        if empty df then (w, HTTPException 404) else
        match process_data (Some df) with
        | None => (w, HTTPException 500)
        | Some df => (w, Success df)
        end
    end.

Definition symbol_metrics (df : DataFrame) : SymbolMetrics :=
  let summary := get_summary_stats (Some df) in
  {| sm_metrics := calculate_performance_metrics (Some df);
     sm_high_52w := from_option s_high_52w (Fin Qc0) summary;
     sm_low_52w := from_option s_low_52w (Fin Qc0) summary;
     sm_avg_close := from_option s_avg_close (Fin Qc0) summary |}.

Definition compare_stocks (env : Env) (w : World) (symbol1 symbol2 : string)
    : World * Response Comparison :=
  let symbol1_upper := upper symbol1 in
  let symbol2_upper := upper symbol2 in
  let available := get_available_companies in
  if negb (bool_decide (symbol1_upper ∈ available))
  then (w, HTTPException 404) else
  if negb (bool_decide (symbol2_upper ∈ available))
  then (w, HTTPException 404) else
  let '(w, r1) := get_stock_df env w symbol1_upper in
  match r1 with
  | HTTPException c => (w, HTTPException c)
  | Success df1_processed =>
      let '(w, r2) := get_stock_df env w symbol2_upper in
      match r2 with
      | HTTPException c => (w, HTTPException c)
      | Success df2_processed =>
          if empty df1_processed then (w, HTTPException 404) else
          if empty df2_processed then (w, HTTPException 404) else
          let metrics1 := calculate_performance_metrics (Some df1_processed) in
          let metrics2 := calculate_performance_metrics (Some df2_processed) in
          let correlation :=
            calculate_correlation (Some df1_processed) (Some df2_processed) in
          (w, Success
                {| cmp_symbol1 := symbol1_upper;
                   cmp_symbol2 := symbol2_upper;
                   cmp_correlation := correlation;
                   cmp_symbol1_metrics := symbol_metrics df1_processed;
                   cmp_symbol2_metrics := symbol_metrics df2_processed;
                   cmp_insights :=
                     insights symbol1_upper symbol2_upper metrics1 metrics2
                              correlation |})
      end
  end.

(** ** Notions the statements use *)

(** Ascending in a key, not strictly. *)
Definition ascending {A} (key : A → Z) (l : list A) : Prop :=
  StronglySorted (λ a b, key a ≤ key b) l.

(** A cell that is not NaN. *)
Definition defined (x : fval) : Prop := notna x = true.

(** The plain arithmetic mean: the sum over the number of cells. *)
Definition mean_of (l : list fval) : fval := fdiv (fsum l) (of_nat (length l)).

(** The merge step of [get_stock_data] on its own: the query for the rows
    of the window, then the write of the rows of [df] it did not return. *)
Definition merge (env : Env) (w : World) (symbol : string) (cutoff_date : Z)
    (df : DataFrame) : Raised + World :=
  save_new_records env w symbol (query_since symbol cutoff_date (store w)) df.

Definition existing_dates (symbol : string) (cutoff : Z) (s : Store) : gset Z :=
  list_to_set (StockData.date <$> query_since symbol cutoff s).

(** The same surroundings with a database engine that fails at commit. *)
Definition with_fault (e : DbError) (env : Env) : Env :=
  {| today := today env; history := history env; db_fault := Some e |}.

(** A frame keeps its dates, its price columns and its column names through
    a stage that only adds a derived column. *)
Definition same_bars (df df' : DataFrame) : Prop :=
  Row.date <$> rows df' = Row.date <$> rows df ∧
  (∀ c, c ∈ price_columns → series c df' = series c df) ∧
  (∀ name, has_col name df = true → has_col name df' = true).

(** A bar with nothing missing, a positive close and a finite volume. *)
Definition bar_ok (b : Bar) : Prop :=
  defined (b_open b) ∧ defined (b_high b) ∧ defined (b_low b) ∧
  fgt (b_close b) (Fin Qc0) = true ∧ isfinite (b_volume b) = true.

Global Instance bar_ok_dec (b : Bar) : Decision (bar_ok b).
Proof. unfold bar_ok, defined. apply _. Defined.

(** Two optional lists that are both absent or permutations of each other. *)
Definition opt_perm {A} (o o' : option (list A)) : Prop :=
  match o, o' with
  | Some k, Some k' => k ≡ₚ k'
  | None, None => True
  | _, _ => False
  end.

(** ** Concrete situations *)

Definition demo_bar (d o c : Z) : Bar :=
  mkBar d (of_Z o) (of_Z (c + 2)) (of_Z (o - 1)) (of_Z c) (of_Z 1000).

(** Ten bars on the days 1 to 10. *)
Definition ten_bars : list Bar :=
  [demo_bar 1 10 11; demo_bar 2 11 12; demo_bar 3 12 11; demo_bar 4 11 13;
   demo_bar 5 13 14; demo_bar 6 14 15; demo_bar 7 15 14; demo_bar 8 14 16;
   demo_bar 9 16 17; demo_bar 10 17 18].

(** On day 10 the provider knows the NSE listing of TCS and nothing else. *)
Definition env_tcs : Env :=
  mkEnv 10
    (λ identifier _,
       if bool_decide (identifier = "TCS.NS"%string) then Some ten_bars
       else Some [])
    None.

(** The provider returns the same ten bars for every identifier. *)
Definition env_same_bars : Env := mkEnv 10 (λ _ _, Some ten_bars) None.

Definition world_empty : World := mkWorld [] [].

Definition demo_record (d o h l c : Z) : StockData.t :=
  StockData.mk "TCS" d (of_Z o) (of_Z h) (of_Z l) (of_Z c) (Some 1000)
    (Some (Fin Qc0)) (Some (of_Z c)) (Some (Fin Qc0)).

(** On day 100 the table holds TCS for the days 99 and 100. *)
Definition env_day_100 : Env := mkEnv 100 (λ _ _, None) None.

Definition world_two_days : World :=
  mkWorld [demo_record 99 10 12 9 10; demo_record 100 10 13 10 11] [].

(** One bar that opens at zero and closes at five. *)
Definition zero_open_frame : DataFrame :=
  {| columns := ["date"; "open"; "high"; "low"; "close"; "volume"];
     rows := [Row.mk 1 (of_Z 0) (of_Z 6) (of_Z 0) (of_Z 5) (of_Z 10)
                NaN NaN NaN] |}.

(** On day 11 the table holds TCS for the days 5, 8 and 10, and the
    provider knows the bars of the days 5, 8, 10 and 11. *)
Definition env_day_11 : Env :=
  mkEnv 11
    (λ identifier _,
       if bool_decide (identifier = "TCS.NS"%string)
       then Some [demo_bar 5 10 11; demo_bar 8 11 12; demo_bar 10 12 11;
                  demo_bar 11 11 13]
       else Some [])
    None.

Definition world_three_days : World :=
  mkWorld [demo_record 5 10 13 9 11; demo_record 8 11 14 10 12;
           demo_record 10 12 13 11 11] [].

(** Three bars out of order: one closes at zero, one has no close. *)
Definition untidy_bars : list Bar :=
  [mkBar 3 (of_Z 10) (of_Z 12) (of_Z 9) (of_Z 11) (of_Z 100);
   mkBar 1 (of_Z 10) (of_Z 12) (of_Z 9) (of_Z 0) (of_Z 100);
   mkBar 2 (of_Z 10) (of_Z 12) (of_Z 9) NaN (of_Z 100)].


(** Two bars that close at the same price. *)
Definition flat_bars : list Bar := [demo_bar 1 10 5; demo_bar 2 10 5].

(** Two bars on days that [ten_bars] does not have. *)
Definition later_bars : list Bar := [demo_bar 20 10 11; demo_bar 21 11 12].

(** * Properties *)

(** ** Sorting *)

Section sorting.
Context {A : Type} (key : A → Z).

Lemma insert_by_perm (r : A) (l : list A) : insert_by key r l ≡ₚ r :: l.
Proof.
  induction l as [|x l IH]; simpl; [done|].
  case_bool_decide; [done|].
  rewrite IH. apply Permutation_swap.
Qed.

Lemma sort_by_perm (l : list A) : sort_by key l ≡ₚ l.
Proof.
  induction l as [|x l IH]; simpl; [done|].
  by rewrite insert_by_perm, IH.
Qed.

Lemma sort_by_length (l : list A) : length (sort_by key l) = length l.
Proof. by rewrite sort_by_perm. Qed.

Lemma insert_by_ascending (r : A) (l : list A) :
  ascending key l → ascending key (insert_by key r l).
Proof.
  unfold ascending. induction 1 as [|x l Hl IH Hx]; simpl.
  - repeat constructor.
  - case_bool_decide as Hle.
    + constructor; [by constructor|].
      constructor; [done|].
      eapply Forall_impl; [exact Hx|]. simpl. lia.
    + constructor; [done|].
      rewrite insert_by_perm. constructor; [lia|done].
Qed.

Lemma sort_by_ascending (l : list A) : ascending key (sort_by key l).
Proof.
  induction l as [|x l IH]; simpl; [constructor|].
  by apply insert_by_ascending.
Qed.

Lemma sort_by_sorted_id (l : list A) : ascending key l → sort_by key l = l.
Proof.
  unfold ascending. induction 1 as [|x l Hl IH Hx]; simpl; [done|].
  rewrite IH. destruct l as [|y l']; simpl; [done|].
  apply Forall_cons_1 in Hx as [Hxy _].
  by rewrite bool_decide_eq_true_2.
Qed.

Lemma ascending_drop (n : nat) (l : list A) :
  ascending key l → ascending key (drop n l).
Proof.
  unfold ascending. intros H. revert n.
  induction H as [|x l Hl IH Hx]; intros [|n]; simpl;
    try constructor; auto.
Qed.

Lemma ascending_fmap (l : list A) :
  StronglySorted Z.le (key <$> l) → ascending key l.
Proof.
  unfold ascending. induction l as [|x l IH]; csimpl; [constructor|].
  intros H. apply StronglySorted_inv in H as [Hl Hx].
  constructor; [by apply IH|].
  apply Forall_forall. intros y Hy.
  apply (proj1 (Forall_forall _ _) Hx (key y)).
  apply list_elem_of_fmap. eauto.
Qed.

End sorting.

Lemma StronglySorted_lt_le (l : list Z) :
  StronglySorted Z.lt l → StronglySorted Z.le l.
Proof.
  induction 1 as [|x l Hl IH Hx]; constructor; [done|].
  eapply Forall_impl; [exact Hx|]. simpl. lia.
Qed.

Lemma StronglySorted_lt_NoDup (l : list Z) : StronglySorted Z.lt l → NoDup l.
Proof.
  induction 1 as [|x l Hl IH Hx]; constructor; [|done].
  intros Hin. rewrite Forall_forall in Hx. specialize (Hx _ Hin). lia.
Qed.

Lemma StronglySorted_drop {A} (R : relation A) n (l : list A) :
  StronglySorted R l → StronglySorted R (drop n l).
Proof.
  intros H. revert n. induction H as [|x l Hl IH Hx]; intros [|n]; simpl;
    try constructor; auto.
Qed.

(** ** Lists *)

Lemma filter_Forall_id {A} (P : A → Prop) `{!∀ x, Decision (P x)} l :
  Forall P l → filter P l = l.
Proof.
  induction 1 as [|x l Hx Hl IH]; [done|].
  by rewrite filter_cons_True, IH.
Qed.

Lemma tail_fmap {A B} (f : A → B) n (l : list A) :
  f <$> tail n l = tail n (f <$> l).
Proof. unfold tail. by rewrite fmap_drop, length_fmap. Qed.

Lemma length_tail {A} n (l : list A) :
  length (tail n l) = (n `min` length l)%nat.
Proof. unfold tail. rewrite length_drop. lia. Qed.

Lemma tail_ge {A} n (l : list A) : (length l ≤ n)%nat → tail n l = l.
Proof.
  intros H. unfold tail. by replace (length l - n)%nat with 0%nat by lia.
Qed.

Lemma mapM_cons {A B} (f : A → option B) x l :
  mapM f (x :: l) = y ← f x; k ← mapM f l; Some (y :: k).
Proof. done. Qed.

Lemma mapM_elem_of {A B} (f : A → option B) l k x y :
  mapM f l = Some k → x ∈ l → f x = Some y → y ∈ k.
Proof.
  intros Hm Hx Hy. apply mapM_Some_1 in Hm.
  apply list_elem_of_lookup in Hx as [i Hi].
  destruct (Forall2_lookup_l _ _ _ _ _ Hm Hi) as (y' & Hk & Hy').
  simplify_eq. by eapply list_elem_of_lookup_2.
Qed.

Lemma mapM_perm {A B} (f : A → option B) (l l' : list A) :
  l ≡ₚ l' → opt_perm (mapM f l) (mapM f l').
Proof.
  induction 1 as [|x l l' H IH|x y l|l l' l'' H1 IH1 H2 IH2]; csimpl.
  - done.
  - destruct (f x); simpl; [|done].
    destruct (mapM f l), (mapM f l'); simpl in *; try done. by f_equiv.
  - destruct (f x), (f y), (mapM f l); simpl; try done. apply Permutation_swap.
  - unfold opt_perm in *.
    destruct (mapM f l), (mapM f l'), (mapM f l''); try done. by etrans.
Qed.

Lemma bind_nil_r {A B} (l : list A) : l ≫= (λ _, @nil B) = [].
Proof. by induction l. Qed.

Lemma bind_app_perm {A B} (f g : A → list B) (l : list A) :
  l ≫= (λ a, f a ++ g a) ≡ₚ (l ≫= f) ++ (l ≫= g).
Proof.
  induction l as [|a l IH]; csimpl; [done|].
  rewrite IH. rewrite <- !(assoc_L (++)). f_equiv.
  rewrite !(assoc_L (++)). f_equiv. apply Permutation_app_comm.
Qed.

Lemma bind_comm_perm {A B C} (h : A → B → list C) (l1 : list A) (l2 : list B) :
  (l1 ≫= λ a, l2 ≫= λ b, h a b) ≡ₚ (l2 ≫= λ b, l1 ≫= λ a, h a b).
Proof.
  induction l1 as [|a l1 IH]; csimpl.
  - by rewrite bind_nil_r.
  - rewrite IH. symmetry. apply (bind_app_perm (h a)).
Qed.

Lemma fmap_bind {A B C} (f : B → C) (g : A → list B) (l : list A) :
  f <$> (l ≫= g) = l ≫= (λ a, f <$> g a).
Proof. induction l as [|a l IH]; csimpl; [done|]. by rewrite fmap_app, IH. Qed.

(** ** Floats *)

Lemma Qc_sign_Eq q : Qc_sign q = Eq ↔ q = Qc0.
Proof.
  unfold Qc_sign. split; [apply Qceq_alt | intros ->; by apply Qceq_alt].
Qed.

Lemma Qc_div_1 q : ((q + Qc0) / Q2Qc (inject_Z 1) = q)%Qc.
Proof.
  change (Q2Qc (inject_Z 1)) with Qc1.
  unfold Qcdiv. change (/ Qc1)%Qc with Qc1. unfold Qc0, Qc1. ring.
Qed.

Lemma fgt_irrefl x : fgt x x = false.
Proof.
  destruct x as [q| | |]; simpl; try done.
  apply bool_decide_eq_false_2. intros H. by apply Qclt_not_eq in H.
Qed.

Lemma fgt_asym x y : fgt x y = true → fgt y x = false.
Proof.
  destruct x as [a| | |], y as [b| | |]; simpl; try done.
  intros H%bool_decide_eq_true_1. apply bool_decide_eq_false_2.
  intros H'. apply (Qclt_not_le _ _ H). by apply Qclt_le_weak.
Qed.

Lemma fgt_defined x y : fgt x y = true → defined x.
Proof. by destruct x. Qed.

Lemma isfinite_defined x : isfinite x = true → defined x.
Proof. by destruct x. Qed.

Lemma dropna_all_defined l : Forall defined l → dropna l = l.
Proof. apply filter_Forall_id. Qed.

Lemma fmean_defined l : l ≠ [] → Forall defined l → fmean l = mean_of l.
Proof.
  intros Hne Hl. unfold fmean. rewrite dropna_all_defined by done.
  by destruct l.
Qed.

Lemma mean_of_singleton x : defined x → mean_of [x] = x.
Proof.
  unfold mean_of. destruct x as [q| | |]; try done. intros _. simpl.
  change (Qc_sign (Q2Qc (inject_Z (Z.of_nat 1)))) with Gt. cbv iota.
  f_equal. apply Qc_div_1.
Qed.

Lemma fmean_singleton x : fmean [x] = x.
Proof.
  destruct (notna x) eqn:E.
  - rewrite fmean_defined; [by apply mean_of_singleton|done|by constructor].
  - by destruct x.
Qed.

Lemma rolling_lookup {A B} w (f : list A → B) l i :
  (i < length l)%nat → rolling w f l !! i = Some (f (window w i l)).
Proof.
  intros Hi. unfold rolling. rewrite list_lookup_fmap.
  by rewrite lookup_seq_lt.
Qed.

Lemma length_rolling {A B} w (f : list A → B) l :
  length (rolling w f l) = length l.
Proof. unfold rolling. by rewrite length_fmap, length_seq. Qed.

Lemma window_head {A} w i (l : list A) :
  (i < w)%nat → window w i l = take (S i) l.
Proof.
  intros Hi. unfold window. by replace (S i - w)%nat with 0%nat by lia.
Qed.

Lemma ffill_from_defined last l : Forall defined l → ffill_from last l = l.
Proof.
  intros H. revert last. induction H as [|x l Hx Hl IH]; intros last; [done|].
  simpl. unfold defined, notna in Hx. destruct (isna x); [done|]. by rewrite IH.
Qed.

Lemma ffill_defined l : Forall defined l → ffill l = l.
Proof. apply ffill_from_defined. Qed.

Lemma bfill_defined l : Forall defined l → bfill l = l.
Proof.
  induction 1 as [|x l Hx Hl IH]; [done|].
  simpl. rewrite IH. unfold defined, notna in Hx. by destruct (isna x).
Qed.

(** ** Frames *)

Lemma set_get_col c r : set_col c (get_col c r) r = r.
Proof. by destruct r, c. Qed.

Lemma set_col_date c v r : Row.date (set_col c v r) = Row.date r.
Proof. by destruct r, c. Qed.

Lemma get_set_col c v r : get_col c (set_col c v r) = v.
Proof. by destruct r, c. Qed.

Lemma get_set_col_ne c c' v r :
  c ≠ c' → get_col c' (set_col c v r) = get_col c' r.
Proof. by destruct r, c, c'. Qed.

Lemma zip_with_set_get c rs : zip_with (set_col c) (get_col c <$> rs) rs = rs.
Proof. induction rs; csimpl; [done|]. by rewrite set_get_col, IHrs. Qed.

Lemma zip_with_set_col_fmap {B} (g : Row.t → B) c vals rs :
  (∀ v r, g (set_col c v r) = g r) →
  length vals = length rs →
  g <$> zip_with (set_col c) vals rs = g <$> rs.
Proof.
  intros Hg. revert vals. induction rs as [|r rs IH]; intros [|v vals] Hlen;
    simplify_eq/=; [done|]. csimpl. by rewrite Hg, IH.
Qed.

Lemma length_series c df : length (series c df) = length (rows df).
Proof. apply length_fmap. Qed.

Lemma lookup_assign c vals df i r v :
  rows df !! i = Some r → vals !! i = Some v →
  rows (assign c vals df) !! i = Some (set_col c v r).
Proof.
  intros Hr Hv. unfold assign. cbn [rows].
  rewrite lookup_zip_with, Hv. simpl. by rewrite Hr.
Qed.

Lemma assign_series c df :
  has_col (col_name c) df = true → assign c (series c df) df = df.
Proof.
  intros H. unfold assign, series. rewrite H, zip_with_set_get. by destruct df.
Qed.

Lemma rows_assign_length c vals df :
  length vals = length (rows df) →
  length (rows (assign c vals df)) = length (rows df).
Proof. intros H. unfold assign. cbn [rows]. rewrite length_zip_with. lia. Qed.

Lemma assign_dates c vals df :
  length vals = length (rows df) →
  Row.date <$> rows (assign c vals df) = Row.date <$> rows df.
Proof.
  intros H. unfold assign. cbn [rows].
  apply zip_with_set_col_fmap; [apply set_col_date|done].
Qed.

Lemma assign_other c c' vals df :
  c ≠ c' → length vals = length (rows df) →
  series c' (assign c vals df) = series c' df.
Proof.
  intros Hne H. unfold series, assign. cbn [rows].
  apply zip_with_set_col_fmap; [|done]. intros. by apply get_set_col_ne.
Qed.

Lemma assign_same c vals df :
  length vals = length (rows df) → series c (assign c vals df) = vals.
Proof.
  unfold series, assign. cbn [rows]. generalize (rows df). clear df.
  induction vals as [|v vals IH]; intros [|r rs] Hlen; simplify_eq/=; [done|].
  csimpl. by rewrite get_set_col, IH.
Qed.

Lemma assign_columns_has c c' vals df :
  has_col c' df = true → has_col c' (assign c vals df) = true.
Proof.
  unfold assign, has_col. cbn [columns]. intros H%bool_decide_eq_true_1.
  apply bool_decide_eq_true_2. case_bool_decide; [done|].
  apply elem_of_app. by left.
Qed.

Lemma assign_has_own c vals df :
  has_col (col_name c) (assign c vals df) = true.
Proof.
  unfold assign, has_col. cbn [columns]. apply bool_decide_eq_true_2.
  case_bool_decide; [done|]. apply elem_of_app. right. apply list_elem_of_here.
Qed.

Lemma map_series_id c f df :
  (has_col (col_name c) df = true → f (series c df) = series c df) →
  map_series c f df = df.
Proof.
  intros H. unfold map_series. destruct (has_col _ df) eqn:E; [|done].
  rewrite H by done. by apply assign_series.
Qed.

Lemma price_column_volume : c_volume ∈ price_columns.
Proof.
  unfold price_columns.
  repeat (apply list_elem_of_here || apply list_elem_of_further).
Qed.

Lemma price_column_close : c_close ∈ price_columns.
Proof.
  unfold price_columns.
  repeat (apply list_elem_of_here || apply list_elem_of_further).
Qed.

Lemma not_price_column c :
  c ∈ [c_daily_return; c_ma_7; c_volatility_score] → c ∉ price_columns.
Proof.
  intros H Hp. unfold price_columns in Hp.
  repeat (apply elem_of_cons in H as [->|H];
          [repeat (apply elem_of_cons in Hp as [Hp|Hp]; [discriminate|]);
           by apply elem_of_nil in Hp|]).
  by apply elem_of_nil in H.
Qed.

(** ** The enricher *)

Lemma same_bars_refl df : same_bars df df.
Proof. done. Qed.

Lemma same_bars_trans df1 df2 df3 :
  same_bars df1 df2 → same_bars df2 df3 → same_bars df1 df3.
Proof.
  intros (H1 & H2 & H3) (H1' & H2' & H3'). split_and!.
  - congruence.
  - intros c Hc. rewrite H2', H2; done.
  - eauto.
Qed.

Lemma same_bars_assign c vals df :
  c ∉ price_columns → length vals = length (rows df) →
  same_bars df (assign c vals df).
Proof.
  intros Hc Hlen. split_and!.
  - by apply assign_dates.
  - intros c' Hc'. apply assign_other; [|done]. by intros ->.
  - intros. by apply assign_columns_has.
Qed.

Lemma calculate_daily_return_same_bars df :
  same_bars df (calculate_daily_return df).
Proof.
  unfold calculate_daily_return. case_match; [|apply same_bars_refl].
  apply same_bars_assign.
  - apply not_price_column, list_elem_of_here.
  - by rewrite length_fmap.
Qed.

Lemma calculate_moving_average_same_bars df w :
  same_bars df (calculate_moving_average df w).
Proof.
  unfold calculate_moving_average. case_match; [|apply same_bars_refl].
  apply same_bars_assign.
  - apply not_price_column, list_elem_of_further, list_elem_of_here.
  - unfold rolling_mean. by rewrite length_rolling, length_series.
Qed.

Lemma calculate_volatility_score_same_bars df w :
  same_bars df (calculate_volatility_score df w).
Proof.
  unfold calculate_volatility_score.
  set (df' := if has_col "daily_return" df then df else _).
  assert (H : same_bars df df').
  { unfold df'. case_match; [apply same_bars_refl|].
    apply calculate_daily_return_same_bars. }
  case_match; [|done].
  eapply same_bars_trans; [exact H|].
  apply same_bars_assign.
  - apply not_price_column.
    do 2 apply list_elem_of_further. apply list_elem_of_here.
  - unfold rolling_var. by rewrite length_fmap, length_rolling, length_series.
Qed.

Lemma process_data_same_bars (df df_clean df_processed : DataFrame) :
  empty df = false →
  clean_data (Some df) = Some df_clean →
  process_data (Some df) = Some df_processed →
  same_bars df_clean df_processed.
Proof.
  intros He Hc. unfold process_data. rewrite He, Hc. intros [= <-].
  eapply same_bars_trans; [apply calculate_daily_return_same_bars|].
  eapply same_bars_trans; [apply calculate_moving_average_same_bars|].
  apply calculate_volatility_score_same_bars.
Qed.

Lemma daily_return_same_open_close (o : fval) :
  fillna0 (fdiv (fsub o o) o) = Fin Qc0.
Proof.
  destruct o as [o| | |]; simpl; try done.
  assert (Hz : (o + - o)%Qc = Qc0) by (unfold Qc0; ring). rewrite Hz.
  destruct (Qc_sign o) eqn:E; [done|..]; simpl; f_equal; unfold Qc0;
    field; intros ->; discriminate E.
Qed.

(** C6.  The claim fails where a bar opens at zero.  For a bar that opens
    at 0 and closes at 5 the quotient (5 - 0) / 0 is an infinity, and the
    replacement of NaN by 0 that follows the division leaves an infinity
    alone: the daily return is infinite, not 0, in the column
    [calculate_daily_return] writes and in the frame [process_data]
    returns. *)
Theorem daily_return_of_zero_open :
  series c_open zero_open_frame = [Fin Qc0] ∧
  series c_close zero_open_frame = [of_Z 5] ∧
  series c_daily_return (calculate_daily_return zero_open_frame) = [PInf] ∧
  series c_daily_return <$> process_data (Some zero_open_frame)
  = Some [PInf].
Proof. split_and!; apply (bool_decide_unpack _); by vm_compute. Qed.

(** X30.  The cells [calculate_daily_return] writes.  On a frame with
    the columns [open] and [close] every row gets a daily return, which is
    never NaN: it is [(close - open) / open] when open and close are finite
    and open is not zero, and it is 0 when open equals close and when open
    is missing. *)
Theorem calculate_daily_return_cells (df : DataFrame) (i : nat) (r : Row.t) :
  has_col "open" df = true →
  has_col "close" df = true →
  rows df !! i = Some r →
  ∃ v, rows (calculate_daily_return df) !! i
         = Some (set_col c_daily_return v r) ∧
    defined v ∧
    (∀ o c, Row.open r = Fin o → Row.close r = Fin c → o ≠ Qc0 →
       v = Fin ((c - o) / o)%Qc) ∧
    (Row.open r = Row.close r → v = Fin Qc0) ∧
    (Row.open r = NaN → v = Fin Qc0).
Proof.
  intros Ho Hc Hr.
  exists (fillna0 (fdiv (fsub (Row.close r) (Row.open r)) (Row.open r))).
  split_and!.
  - unfold calculate_daily_return. rewrite Ho, Hc. cbn [andb].
    apply lookup_assign; [done|].
    by rewrite list_lookup_fmap, Hr.
  - by destruct (fdiv _ _).
  - intros o c Eo Ec Hne. rewrite Eo, Ec. simpl.
    destruct (Qc_sign o) eqn:E; [by apply Qc_sign_Eq in E|done..].
  - intros ->. apply daily_return_same_open_close.
  - intros E. rewrite E. by destruct (Row.close r).
Qed.

Lemma calculate_daily_return_cells_witness :
  ∃ v, rows (calculate_daily_return (frame_of_bars ten_bars)) !! 0%nat
       = Some (set_col c_daily_return v (row_of_bar (demo_bar 1 10 11))).
Proof.
  destruct (calculate_daily_return_cells (frame_of_bars ten_bars) 0
              (row_of_bar (demo_bar 1 10 11)))
    as (v & Hv & _); [reflexivity..|].
  exists v. exact Hv.
Defined.

(** C9.  On a frame with the column [close], the 7-day moving average of
    the first bar is that bar's close and, at every index below 7 where the
    closes so far are defined, it is the mean of the closes of the bars 0
    to [i]. *)
Theorem moving_average_expanding_head (df : DataFrame) (i : nat) (r : Row.t) :
  has_col "close" df = true →
  rows df !! i = Some r →
  (i < 7)%nat →
  ∃ v, rows (calculate_moving_average df 7) !! i = Some (set_col c_ma_7 v r) ∧
    (i = 0%nat → v = Row.close r) ∧
    (Forall defined (take (S i) (series c_close df)) →
       v = mean_of (take (S i) (series c_close df))).
Proof.
  intros Hc Hr Hi.
  assert (Hlen : (i < length (series c_close df))%nat).
  { unfold series. rewrite length_fmap. by eapply lookup_lt_Some. }
  exists (fmean (take (S i) (series c_close df))). split_and!.
  - unfold calculate_moving_average. rewrite Hc.
    apply lookup_assign; [done|].
    unfold rolling_mean. rewrite rolling_lookup by done.
    by rewrite window_head.
  - intros ->. unfold series. destruct (rows df) as [|r0 rs]; [done|].
    simplify_eq/=. rewrite take_0. apply fmean_singleton.
  - intros Hall. apply fmean_defined; [|done].
    destruct (series c_close df); [simpl in Hlen; lia|done].
Qed.

Lemma moving_average_expanding_head_witness :
  ∃ v, rows (calculate_moving_average (frame_of_bars ten_bars) 7) !! 3%nat
       = Some (set_col c_ma_7 v (row_of_bar (demo_bar 4 11 13))).
Proof.
  destruct (moving_average_expanding_head (frame_of_bars ten_bars) 3
              (row_of_bar (demo_bar 4 11 13)))
    as (v & Hv & _); [reflexivity|reflexivity|lia|].
  exists v. exact Hv.
Defined.

(** ** The correlation *)

Lemma merge_on_date_swap (l1 l2 : list Row.t) :
  merge_on_date l2 l1 ≡ₚ prod_swap <$> merge_on_date l1 l2.
Proof.
  unfold merge_on_date. rewrite bind_comm_perm.
  rewrite fmap_bind. apply reflexive_eq, list_bind_ext; [|done].
  intros r1. rewrite fmap_bind. apply list_bind_ext; [|done].
  intros r2. repeat case_bool_decide; done || congruence.
Qed.

Lemma Qcsum_perm (l l' : list Qc) : l ≡ₚ l' → Qcsum l = Qcsum l'.
Proof.
  unfold Qcsum. induction 1; simpl; [done|congruence|ring|congruence].
Qed.

Lemma Qcsum_fmap_perm {A} (g : A → Qc) (l l' : list A) :
  l ≡ₚ l' → Qcsum (g <$> l) = Qcsum (g <$> l').
Proof. intros H. apply Qcsum_perm. by rewrite H. Qed.

Lemma Qcsum_fmap_ext {A} (g g' : A → Qc) (l : list A) :
  (∀ x, g x = g' x) → Qcsum (g <$> l) = Qcsum (g' <$> l).
Proof. intros H. f_equal. by apply list_fmap_ext. Qed.

Lemma pearson_perm (ps ps' : list (Qc * Qc)) :
  ps ≡ₚ ps' → pearson ps = pearson ps'.
Proof.
  intros H. unfold pearson.
  rewrite (Permutation_length H).
  by rewrite !(Qcsum_fmap_perm _ _ _ H).
Qed.

Lemma pearson_swap (ps : list (Qc * Qc)) :
  pearson (prod_swap <$> ps) = pearson ps.
Proof.
  unfold pearson. rewrite length_fmap, <- !list_fmap_compose.
  change (fst ∘ prod_swap) with (@snd Qc Qc).
  change (snd ∘ prod_swap) with (@fst Qc Qc).
  set (n := Q2Qc _).
  set (mx := (Qcsum (fst <$> ps) / n)%Qc).
  set (my := (Qcsum (snd <$> ps) / n)%Qc).
  cbv zeta.
  rewrite (Qcsum_fmap_ext ((λ p, (p.1 - my) * (p.2 - mx))%Qc ∘ prod_swap)
             (λ p, (p.1 - mx) * (p.2 - my))%Qc)
    by (intros []; simpl; ring).
  rewrite (Qcsum_fmap_ext ((λ p, (p.1 - my) * (p.1 - my))%Qc ∘ prod_swap)
             (λ p, (p.2 - my) * (p.2 - my))%Qc)
    by (intros []; simpl; ring).
  rewrite (Qcsum_fmap_ext ((λ p, (p.2 - mx) * (p.2 - mx))%Qc ∘ prod_swap)
             (λ p, (p.1 - mx) * (p.1 - mx))%Qc)
    by (intros []; simpl; ring).
  rewrite orb_comm. case_match; [done|].
  do 2 f_equal. f_equal. apply Qcmult_comm.
Qed.

Lemma mapM_finite_pair_swap (l : list (fval * fval)) :
  mapM finite_pair (prod_swap <$> l) = fmap prod_swap <$> mapM finite_pair l.
Proof.
  induction l as [|[a b] l IH]; [done|].
  rewrite fmap_cons, !mapM_cons, IH.
  destruct a, b; simpl; try done; by destruct (mapM finite_pair l).
Qed.

Lemma correlation_of_merged_swap (l l' : list (fval * fval)) :
  l' ≡ₚ prod_swap <$> l →
  correlation_of_merged l' = correlation_of_merged l.
Proof.
  intros H. unfold correlation_of_merged.
  rewrite (Permutation_length H), length_fmap.
  case_bool_decide; [done|].
  set (P := λ p : fval * fval, (notna p.1 && notna p.2) = true).
  assert (HF : filter P l' ≡ₚ prod_swap <$> filter P l).
  { rewrite H. apply reflexive_eq. clear.
    induction l as [|[a b] l IH]; [done|].
    rewrite fmap_cons, !filter_cons, IH.
    destruct (decide (P (prod_swap (a, b)))) as [Hs|Hs],
             (decide (P (a, b))) as [Hp|Hp]; try done;
      exfalso; revert Hs Hp; unfold P; simpl;
      destruct (notna a), (notna b); simpl; congruence. }
  rewrite (Permutation_length HF), length_fmap.
  case_bool_decide; [done|].
  pose proof (mapM_perm finite_pair _ _ HF) as HM.
  rewrite mapM_finite_pair_swap in HM.
  destruct (mapM finite_pair (filter P l')) as [ps'|],
           (mapM finite_pair (filter P l)) as [ps|]; simpl in HM; try done.
  by rewrite (pearson_perm _ _ HM), pearson_swap.
Qed.

(** C10.  [calculate_correlation] is symmetric in its two frames, the
    degenerate cases included: an absent or empty frame, a frame without
    the columns [date] and [close], fewer than two rows of equal date, or
    fewer than two of them with both closes defined, all of which give
    0.0 in either order. *)
Theorem calculate_correlation_symmetric (df1 df2 : option DataFrame) :
  calculate_correlation df1 df2 = calculate_correlation df2 df1.
Proof.
  destruct df1 as [df1|], df2 as [df2|]; try done.
  unfold calculate_correlation. rewrite (orb_comm (empty df2)).
  destruct (empty df1 || empty df2); [done|].
  destruct (negb (has_col "date" df1) || negb (has_col "close" df1)),
           (negb (has_col "date" df2) || negb (has_col "close" df2));
    try done.
  apply correlation_of_merged_swap, merge_on_date_swap.
Qed.

(** ** The comparison *)

(** C5, as the code has it.  In a successful comparison the better
    performer is the first symbol when its total return is greater than
    the second's, and the second symbol otherwise: when the second's is
    greater and also when the two are equal. *)
Theorem compare_better_performer (env : Env) (w w' : World)
    (symbol1 symbol2 : string) (cmp : Comparison) :
  compare_stocks env w symbol1 symbol2 = (w', Success cmp) →
  let t1 := get_total_return_pct (sm_metrics (cmp_symbol1_metrics cmp)) in
  let t2 := get_total_return_pct (sm_metrics (cmp_symbol2_metrics cmp)) in
  cmp_symbol1 cmp = upper symbol1 ∧ cmp_symbol2 cmp = upper symbol2 ∧
  (fgt t1 t2 = true → better_performer (cmp_insights cmp) = upper symbol1) ∧
  (fgt t2 t1 = true → better_performer (cmp_insights cmp) = upper symbol2) ∧
  (t1 = t2 → better_performer (cmp_insights cmp) = upper symbol2).
Proof.
  unfold compare_stocks. intros H.
  destruct (negb (bool_decide (upper symbol1 ∈ _))); [done|].
  destruct (negb (bool_decide (upper symbol2 ∈ _))); [done|].
  destruct (get_stock_df env w (upper symbol1)) as [w1 [df1|c1]]; [|done].
  destruct (get_stock_df env w1 (upper symbol2)) as [w2 [df2|c2]]; [|done].
  destruct (empty df1); [done|]. destruct (empty df2); [done|].
  unfold symbol_metrics, insights in H.
  remember (calculate_performance_metrics (Some df1)) as m1.
  remember (calculate_performance_metrics (Some df2)) as m2.
  injection H as <- <-.
  cbn [cmp_symbol1 cmp_symbol2 cmp_insights cmp_symbol1_metrics
       cmp_symbol2_metrics sm_metrics better_performer].
  split_and!; try done.
  - by intros ->.
  - intros Hlt. by rewrite (fgt_asym _ _ Hlt).
  - intros ->. by rewrite fgt_irrefl.
Qed.

Lemma compare_better_performer_witness :
  ∃ cmp, (compare_stocks env_same_bars world_empty "tcs" "infy").2
         = Success cmp ∧ cmp_symbol1 cmp = "TCS"%string.
Proof.
  destruct (compare_stocks env_same_bars world_empty "tcs" "infy")
    as [w' [cmp|c]] eqn:E; [|by vm_compute in E].
  exists cmp. split; [done|].
  by destruct (compare_better_performer _ _ _ _ _ _ E) as (-> & _).
Defined.

(** C5 as the spec states it fails: two tickers with the same bars have
    equal total returns, and the better performer is the second ticker. *)
Lemma better_performer_tie_counterexample :
  ∃ cmp, (compare_stocks env_same_bars world_empty "TCS" "INFY").2
         = Success cmp ∧
    get_total_return_pct (sm_metrics (cmp_symbol1_metrics cmp))
    = get_total_return_pct (sm_metrics (cmp_symbol2_metrics cmp)) ∧
    better_performer (cmp_insights cmp) = "INFY"%string.
Proof. eexists. split; [by vm_compute|]. split; by vm_compute. Qed.

(** ** The series endpoint *)

Lemma fetch_stock_data_logs env w symbol period w' r :
  fetch_stock_data env w symbol period = (w', r) →
  store w' = store w ∧
  ∃ identifier rest, fetch_log w' = fetch_log w ++ identifier :: rest.
Proof.
  unfold fetch_stock_data. intros H.
  repeat case_match; simplify_eq; simpl; (split; [done|]); eauto.
  all: rewrite <- app_assoc; simpl; eauto.
Qed.

Lemma save_new_records_log env w symbol db_records df w' :
  save_new_records env w symbol db_records df = inr w' →
  fetch_log w' = fetch_log w.
Proof.
  unfold save_new_records. intros H.
  repeat case_match; by simplify_eq.
Qed.

Lemma empty_symbol_unknown : EmptyString ∉ get_available_companies.
Proof. apply (bool_decide_unpack _). by vm_compute. Qed.

Lemma known_ticker_guards symbol :
  strip (upper symbol) ∈ get_available_companies →
  bool_decide (symbol = EmptyString) = false ∧
  bool_decide (strip (upper symbol) = EmptyString) = false ∧
  bool_decide (strip (upper symbol) ∈ get_available_companies) = true.
Proof.
  intros H. split_and!.
  - apply bool_decide_eq_false_2. intros ->. by apply empty_symbol_unknown.
  - apply bool_decide_eq_false_2. intros E. rewrite E in H.
    by apply empty_symbol_unknown.
  - by apply bool_decide_eq_true_2.
Qed.

Lemma query_since_length symbol cutoff s :
  length (query_since symbol cutoff s) = length (rows_since symbol cutoff s).
Proof. apply sort_by_length. Qed.

(** C1.  For a known ticker and a day count in range: when the table holds
    at least [days] rows of the ticker dated [today - days] or later, the
    answer is those rows, ascending by date, and the world is unchanged, so
    the provider was not called; when it holds fewer, the provider is
    called. *)
Theorem sufficiency_test (env : Env) (w w' : World) (symbol : string)
    (days : Z) (response : Response SeriesBody) :
  1 ≤ days ≤ 365 →
  strip (upper symbol) ∈ get_available_companies →
  get_stock_data env w symbol days = (w', response) →
  let ticker := strip (upper symbol) in
  let stored := rows_since ticker (today env - days) (store w) in
  (days ≤ Z.of_nat (length stored) →
     w' = w ∧
     ∃ body, response = Success body ∧
       body_symbol body = ticker ∧
       rows (body_data body) ≡ₚ row_of_record <$> stored ∧
       ascending Row.date (rows (body_data body))) ∧
  (Z.of_nat (length stored) < days →
     ∃ identifier rest, fetch_log w' = fetch_log w ++ identifier :: rest).
Proof.
  intros Hdays Hknown H ticker stored. unfold get_stock_data in H.
  destruct (known_ticker_guards _ Hknown) as (E1 & E2 & E3).
  rewrite E1, E2, E3 in H.
  rewrite (bool_decide_eq_true_2 (1 ≤ days ≤ 365)) in H by done.
  cbn [negb] in H.
  assert (Hlen : length (query_since ticker (today env - days) (store w))
                 = length stored) by apply query_since_length.
  fold ticker in H. split.
  - intros Hsuff.
    rewrite (bool_decide_eq_true_2 (days ≤ _)) in H by lia.
    rewrite bool_decide_eq_true_2 in H.
    2:{ intros E. rewrite E in Hlen. simpl in Hlen. lia. }
    cbn [andb] in H. simplify_eq. split; [done|].
    eexists. split; [done|]. cbn [body_symbol body_data]. split; [done|]. split.
    + unfold sort_values_date, with_rows, frame_of_records. cbn [rows].
      rewrite sort_by_perm. unfold query_since. by rewrite sort_by_perm.
    + apply sort_by_ascending.
  - intros Hinsuff.
    rewrite (bool_decide_eq_false_2 (days ≤ _)) in H by lia.
    rewrite andb_false_r in H.
    destruct (fetch_stock_data env w ticker None) as [w1 fetched] eqn:Hf.
    apply fetch_stock_data_logs in Hf as [_ (id & rest & Hlog)].
    exists id, rest. rewrite <- Hlog.
    destruct fetched as [df|]; [|by simplify_eq].
    destruct (empty df); [by simplify_eq|].
    destruct (process_data (Some df)) as [df'|]; [|by simplify_eq].
    match type of H with
    | match save_new_records ?a ?b ?c ?d ?e with _ => _ end = _ =>
        destruct (save_new_records a b c d e) as [|w2] eqn:Hs
    end; simplify_eq; [done|].
    by eapply save_new_records_log.
Qed.

Lemma sufficiency_test_witness :
  (get_stock_data env_day_100 world_two_days " tcs" 2).1 = world_two_days.
Proof.
  destruct (get_stock_data env_day_100 world_two_days " tcs" 2)
    as [w' response] eqn:E.
  destruct (sufficiency_test env_day_100 world_two_days w' " tcs" 2 response)
    as [Hhit _];
    [lia | apply (bool_decide_unpack _); by vm_compute | exact E |].
  destruct Hhit as [-> _]; [by vm_compute|]. reflexivity.
Defined.

(** C7 fails on the cache-hit path.  On day 100, with TCS stored for the
    days 99 and 100, a request for one day is served from the table and
    carries two rows. *)
Theorem cache_hit_exceeds_requested_days :
  ∃ body, get_stock_data env_day_100 world_two_days "TCS" 1
          = (world_two_days, Success body) ∧
    Row.date <$> rows (body_data body) = [99; 100] ∧
    body_days body = 2%nat.
Proof. eexists. split; [by vm_compute|]. split; by vm_compute. Qed.

(** ** The merge *)

Lemma elem_of_existing_dates symbol cutoff s d :
  d ∈ existing_dates symbol cutoff s ↔
  ∃ r, r ∈ s ∧ StockData.symbol r = symbol ∧ cutoff ≤ StockData.date r ∧
       StockData.date r = d.
Proof.
  unfold existing_dates, query_since, rows_since.
  rewrite elem_of_list_to_set, list_elem_of_fmap.
  setoid_rewrite sort_by_perm. setoid_rewrite list_elem_of_filter.
  split.
  - intros (r & -> & (? & ?) & ?). by exists r.
  - intros (r & ? & ? & ? & <-). by exists r.
Qed.

Lemma existing_dates_mono symbol cutoff s new d :
  d ∈ existing_dates symbol cutoff s →
  d ∈ existing_dates symbol cutoff (s ++ new).
Proof.
  rewrite !elem_of_existing_dates. intros (r & Hr & ?).
  exists r. split; [|done]. apply elem_of_app. by left.
Qed.

Lemma record_of_row_key symbol row r :
  record_of_row symbol row = Some r →
  StockData.key r = (symbol, Row.date row).
Proof.
  unfold record_of_row. intros H.
  destruct (if notna (Row.volume row) then _ else _); by simplify_eq/=.
Qed.

Lemma merge_twice (env : Env) (w w1 : World) (symbol : string)
    (cutoff_date : Z) (df : DataFrame) :
  merge env w symbol cutoff_date df = inr w1 →
  merge env w1 symbol cutoff_date df = inr w1.
Proof.
  unfold merge, save_new_records.
  fold (existing_dates symbol cutoff_date (store w)).
  fold (existing_dates symbol cutoff_date (store w1)).
  destruct (mapM _ (filter (λ row, Row.date row
              ∉ existing_dates symbol cutoff_date (store w)) (rows df)))
    as [[|r recs]|] eqn:Hm; [| |done].
  { intros [= <-]. by rewrite Hm. }
  unfold bulk_save. destruct (db_fault env) as [[]|] eqn:Hfault;
    [intros [= <-]; rewrite Hm; done | done |].
  destruct (bool_decide (NoDup (StockData.key <$> r :: recs)) &&
            forallb (λ r0, bool_decide
                             (StockData.key r0 ∉ StockData.key <$> store w))
                    (r :: recs)) eqn:Hok;
    [|intros [= <-]; rewrite Hm, Hok; done].
  intros [= <-]. cbn [store set_store].
  set (new1 := filter _ (rows df)) in Hm.
  match goal with |- context [mapM _ ?l] => set (new2 := l) end.
  assert (Hsub : ∀ row, row ∈ new2 → row ∈ new1).
  { intros row. unfold new1, new2. rewrite !list_elem_of_filter.
    intros [Hn ?]. split; [|done]. intros Hin. apply Hn.
    by apply existing_dates_mono. }
  destruct (mapM (record_of_row symbol) new2) as [recs2|] eqn:Hm2.
  2:{ exfalso. apply eq_None_not_Some in Hm2. apply Hm2.
      apply mapM_is_Some, Forall_forall. intros row Hrow.
      assert (Hs : is_Some (mapM (record_of_row symbol) new1)) by eauto.
      apply mapM_is_Some in Hs. rewrite Forall_forall in Hs.
      apply Hs. by apply Hsub. }
  destruct recs2 as [|r2 recs2]; [done|].
  assert (Hin : StockData.key r2 ∈ StockData.key <$> (store w ++ r :: recs)).
  { pose proof (mapM_Some_1 _ _ _ Hm2) as HF.
    destruct new2 as [|row2 rest2] eqn:En; [by inversion HF|].
    apply Forall2_cons_1 in HF as [Hr2 _].
    assert (Hrow : row2 ∈ new1) by (apply Hsub; left).
    apply list_elem_of_fmap. exists r2. split; [done|].
    apply elem_of_app. right.
    by eapply mapM_elem_of. }
  cbn [forallb]. rewrite (bool_decide_eq_false_2 (_ ∉ _)) by tauto.
  by rewrite andb_false_r.
Qed.

(** C8.  Merging the same batch for a ticker a second time changes nothing:
    every bar of the batch is by then in the table, the bars whose date
    the query returns are skipped and any that is left is refused by the
    unique key, so nothing is inserted and the row count is that after
    the first merge. *)
Theorem merge_idempotent (env : Env) (w w1 : World) (symbol : string)
    (cutoff_date : Z) (df : DataFrame) :
  merge env w symbol cutoff_date df = inr w1 →
  ∃ w2, merge env w1 symbol cutoff_date df = inr w2 ∧
        store w2 = store w1 ∧
        length (store w2) = length (store w1).
Proof. intros H. exists w1. by rewrite (merge_twice _ _ _ _ _ _ H). Qed.

Lemma merge_idempotent_witness :
  ∃ w1 w2,
    merge env_tcs world_empty "TCS" 5 (frame_of_bars ten_bars) = inr w1 ∧
    merge env_tcs w1 "TCS" 5 (frame_of_bars ten_bars) = inr w2 ∧
    length (store w2) = 10%nat.
Proof.
  destruct (merge env_tcs world_empty "TCS" 5 (frame_of_bars ten_bars))
    as [e|w1] eqn:E; [by vm_compute in E|].
  destruct (merge_idempotent _ _ _ _ _ _ E) as (w2 & E2 & Hs & Hl).
  exists w1, w2. split; [done|]. split; [done|].
  rewrite Hl. vm_compute in E. by injection E as <-.
Defined.

(** ** A failing write *)

Lemma fetch_stock_data_with_fault e env w symbol period :
  fetch_stock_data (with_fault e env) w symbol period
  = fetch_stock_data env w symbol period.
Proof. done. Qed.

Lemma bulk_save_inr fault s new_records s' :
  bulk_save fault s new_records = inr s' →
  s' = s ++ new_records ∧
  NoDup (StockData.key <$> new_records) ∧
  Forall (λ r, StockData.key r ∉ StockData.key <$> s) new_records.
Proof.
  unfold bulk_save. destruct fault; [done|].
  destruct (bool_decide _ && forallb _ _) eqn:E; [|done].
  intros [= <-]. apply andb_true_iff in E as [E1 E2].
  rewrite bool_decide_eq_true in E1.
  split_and!; [done..|].
  apply Forall_forall. intros r Hr.
  rewrite forallb_forall in E2.
  apply list_elem_of_In in Hr.
  specialize (E2 r Hr). by rewrite bool_decide_eq_true in E2.
Qed.

Lemma mapM_lookup_Some {A B} (f : A → option B) l k x :
  mapM f l = Some k → x ∈ l → ∃ y, f x = Some y ∧ y ∈ k.
Proof.
  intros Hm Hx. apply mapM_Some_1 in Hm.
  apply list_elem_of_lookup in Hx as [i Hi].
  destruct (Forall2_lookup_l _ _ _ _ _ Hm Hi) as (y & Hy & Hxy).
  exists y. split; [done|]. by eapply list_elem_of_lookup_2.
Qed.

(** C3, as the code has it.  Take a request that attempts a write: the
    series it answers has a row whose date is not among the rows the query
    returned.  If the write fails with an integrity error, the error is
    swallowed: the answer is the same fetched series and the table is left
    as it was.  That is so for an integrity error of the engine and for the
    one the unique key raises when the symbol and the date of the row are
    in the table already.  If the write fails in any other way, the error
    is raised again and the request ends in a status 500, the table left
    as it was. *)
Theorem persistence_failure_handling (env : Env) (w w1 : World)
    (symbol : string) (days : Z) (body : SeriesBody) (row : Row.t) :
  let ticker := strip (upper symbol) in
  let cutoff_date := today env - days in
  get_stock_data env w symbol days = (w1, Success body) →
  row ∈ rows (body_data body) →
  Row.date row ∉ existing_dates ticker cutoff_date (store w) →
  (∃ w2, get_stock_data (with_fault IntegrityError env) w symbol days
           = (w2, Success body) ∧
         store w2 = store w ∧ fetch_log w2 = fetch_log w1) ∧
  ((ticker, Row.date row) ∈ StockData.key <$> store w → store w1 = store w) ∧
  (∃ w2, get_stock_data (with_fault OperationalError env) w symbol days
           = (w2, HTTPException 500) ∧
         store w2 = store w).
Proof.
  intros ticker cutoff_date H Hrow Hnew. subst ticker cutoff_date.
  unfold get_stock_data in *.
  rewrite !fetch_stock_data_with_fault.
  change (today (with_fault _ env)) with (today env).
  destruct (negb (bool_decide (1 ≤ days ≤ 365))); [done|].
  destruct (bool_decide (symbol = EmptyString)); [done|].
  destruct (bool_decide (strip (upper symbol) = EmptyString)); [done|].
  destruct (negb (bool_decide (strip (upper symbol) ∈ _))); [done|].
  destruct (bool_decide (_ ≠ []) && bool_decide (days ≤ _)).
  { (* the table had enough rows: every row answered is one of them *)
    exfalso. injection H as _ <-. cbn [body_data] in Hrow.
    cbn [rows sort_values_date with_rows frame_of_records] in Hrow.
    rewrite sort_by_perm in Hrow.
    apply list_elem_of_fmap in Hrow as (r & -> & Hr).
    apply Hnew. unfold existing_dates.
    change (Row.date (row_of_record r)) with (StockData.date r).
    apply elem_of_list_to_set. by apply list_elem_of_fmap_2. }
  destruct (fetch_stock_data env w (strip (upper symbol)) None)
    as [wf fetched] eqn:Hf.
  apply fetch_stock_data_logs in Hf as [Hstore _].
  destruct fetched as [df|]; [|done].
  destruct (empty df); [done|].
  destruct (process_data (Some df)) as [dfp|]; [|done].
  set (dft := if bool_decide (days < _) then _ else _) in *.
  assert (Hbody : body = {| body_symbol := strip (upper symbol);
                            body_days := length (rows dft);
                            body_data := dft |}).
  { destruct (save_new_records _ _ _ _ _); by simplify_eq. }
  subst body. cbn [body_data] in Hrow.
  revert H. unfold save_new_records.
  fold (existing_dates (strip (upper symbol)) (today env - days) (store w)).
  change (db_fault (with_fault IntegrityError env)) with (Some IntegrityError).
  change (db_fault (with_fault OperationalError env))
    with (Some OperationalError).
  destruct (mapM _ _) as [new_records|] eqn:Hm; [|done].
  assert (Hin : row ∈ filter
            (λ row0, Row.date row0
               ∉ existing_dates (strip (upper symbol)) (today env - days)
                   (store w)) (rows dft))
    by by apply list_elem_of_filter.
  destruct (mapM_lookup_Some _ _ _ _ Hm Hin) as (r & Hr & Hrin).
  destruct new_records as [|r0 rest]; [by apply elem_of_nil in Hrin|].
  intros H.
  assert (Hlog : fetch_log w1 = fetch_log wf).
  { destruct (bulk_save (db_fault env) (store wf) (r0 :: rest)) as [[]|s];
      by simplify_eq/=. }
  split_and!.
  - cbn [bulk_save]. eexists. split; [done|]. by split.
  - intros Hkey.
    destruct (bulk_save (db_fault env) (store wf) (r0 :: rest))
      as [[]|s] eqn:Hb; [by simplify_eq/= | by simplify_eq/= |].
    exfalso. apply bulk_save_inr in Hb as (_ & _ & Hfresh).
    rewrite Forall_forall in Hfresh. apply (Hfresh r Hrin).
    rewrite (record_of_row_key _ _ _ Hr). by rewrite Hstore.
  - cbn [bulk_save]. eauto.
Qed.

Lemma persistence_failure_handling_witness :
  store (get_stock_data env_day_11 world_three_days "TCS" 4).1
  = store world_three_days.
Proof.
  assert (Hx : Exists
            (λ row, (Row.date row
                       ∉ existing_dates (strip (upper "TCS"))
                           (today env_day_11 - 4) (store world_three_days)) ∧
                    ((strip (upper "TCS"), Row.date row)
                       ∈ StockData.key <$> store world_three_days))
            (match (get_stock_data env_day_11 world_three_days "TCS" 4).2 with
             | Success body => rows (body_data body)
             | HTTPException _ => []
             end))
    by (apply (bool_decide_unpack _); vm_compute; exact I).
  revert Hx.
  destruct (get_stock_data env_day_11 world_three_days "TCS" 4)
    as [w1 [body|c]] eqn:E; intros Hx;
    [|exact (False_ind _ (proj1 (Exists_nil _) Hx))].
  apply Exists_exists in Hx as (row & Hrow & Hnew & Hkey).
  destruct (persistence_failure_handling _ _ _ _ _ _ row E Hrow Hnew)
    as (_ & Hsame & _).
  exact (Hsame Hkey).
Defined.

(** C3 as the spec states it fails: when the commit fails with an error
    that is no integrity error, the request ends in a status 500. *)
Lemma persistence_failure_counterexample :
  (get_stock_data (with_fault OperationalError env_tcs)
     world_empty "TCS" 5).2 = HTTPException 500.
Proof. by vm_compute. Qed.

(** ** A fetch into an empty table *)

Lemma series_frame_of_bars_defined c bars :
  Forall bar_ok bars → c ∈ price_columns →
  Forall defined (series c (frame_of_bars bars)).
Proof.
  intros Hb Hc. unfold series, frame_of_bars. cbn [rows].
  rewrite <- list_fmap_compose. apply Forall_fmap.
  eapply Forall_impl; [exact Hb|]. intros b (Ho & Hh & Hl & Hcl & Hv).
  unfold price_columns in Hc.
  repeat (apply elem_of_cons in Hc as [->|Hc];
          [simpl; eauto using fgt_defined, isfinite_defined|]).
  by apply elem_of_nil in Hc.
Qed.

Lemma clean_data_frame_of_bars (bars : list Bar) :
  bars ≠ [] → Forall bar_ok bars → StronglySorted Z.le (b_date <$> bars) →
  clean_data (Some (frame_of_bars bars)) = Some (frame_of_bars bars).
Proof.
  intros Hne Hok Hsorted. unfold clean_data.
  set (df := frame_of_bars bars).
  assert (He : empty df = false) by (by destruct bars).
  rewrite He.
  assert (H1 : with_rows df (filter (λ r, all_na df r = false) (rows df)) = df).
  { rewrite filter_Forall_id; [done|]. by apply Forall_forall. }
  rewrite H1.
  assert (Hcol : ∀ c f, (∀ l, Forall defined l → f l = l) →
                 map_series c f df = df).
  { intros c f Hf. apply map_series_id. intros Hhas. apply Hf.
    apply series_frame_of_bars_defined; [done|].
    destruct c; try discriminate Hhas; unfold price_columns;
      repeat (apply list_elem_of_here || apply list_elem_of_further). }
  unfold price_columns, all_cols. cbn [foldl].
  rewrite !(Hcol _ ffill) by apply ffill_defined.
  rewrite !(Hcol _ bfill) by apply bfill_defined.
  change (has_col "close" df) with true. change (has_col "date" df) with true.
  cbv iota.
  assert (H4 : with_rows df (filter (λ r, fgt (Row.close r) (Fin Qc0) = true)
                                    (rows df)) = df).
  { rewrite filter_Forall_id; [done|]. unfold df, frame_of_bars. cbn [rows].
    apply Forall_fmap. eapply Forall_impl; [exact Hok|].
    by intros b (_ & _ & _ & Hcl & _). }
  rewrite H4. unfold sort_values_date. rewrite sort_by_sorted_id; [done|].
  apply ascending_fmap. unfold df, frame_of_bars. cbn [rows].
  by rewrite <- list_fmap_compose.
Qed.

Lemma mapM_record_of_row symbol (rs : list Row.t) :
  Forall (λ row, isfinite (Row.volume row) = true) rs →
  ∃ recs, mapM (record_of_row symbol) rs = Some recs ∧
          StockData.date <$> recs = Row.date <$> rs ∧
          Forall (λ r, StockData.symbol r = symbol) recs.
Proof.
  induction 1 as [|row rs Hrow Hrs (recs & Hm & Hd & Hs)].
  - by exists [].
  - destruct (record_of_row symbol row) as [r|] eqn:Hr.
    + exists (r :: recs). rewrite mapM_cons, Hr, Hm. csimpl.
      pose proof (record_of_row_key _ _ _ Hr) as [= Hsym Hdate].
      split_and!; [done|by rewrite Hdate, Hd|by constructor].
    + exfalso. unfold record_of_row in Hr.
      destruct (Row.volume row); simplify_eq/=.
Qed.

Lemma fetch_into_empty_table (env : Env) (w w1 : World)
    (symbol : string) (days : Z) (bars : list Bar) :
  1 ≤ days ≤ 365 →
  strip (upper symbol) ∈ get_available_companies →
  store w = [] →
  db_fault env = None →
  fetch_stock_data env w (strip (upper symbol)) None
    = (w1, Some (frame_of_bars bars)) →
  bars ≠ [] →
  Forall bar_ok bars →
  StronglySorted Z.lt (b_date <$> bars) →
  ∃ w2 body,
    get_stock_data env w symbol days = (w2, Success body) ∧
    Row.date <$> rows (body_data body)
      = tail (Z.to_nat days) (b_date <$> bars) ∧
    series c_close (body_data body)
      = tail (Z.to_nat days) (b_close <$> bars) ∧
    body_days body = length (rows (body_data body)) ∧
    StockData.date <$> store w2 = tail (Z.to_nat days) (b_date <$> bars) ∧
    Forall (λ r, StockData.symbol r = strip (upper symbol)) (store w2).
Proof.
  intros Hdays Hknown Hstore Hfault Hfetch Hne Hok Hsorted.
  unfold get_stock_data.
  destruct (known_ticker_guards _ Hknown) as (-> & -> & ->).
  rewrite (bool_decide_eq_true_2 (1 ≤ days ≤ 365)) by done. cbn [negb].
  set (ticker := strip (upper symbol)) in *.
  assert (Hq : query_since ticker (today env - days) (store w) = []).
  { unfold query_since, rows_since. by rewrite Hstore. }
  rewrite Hq, Hfetch.
  rewrite (bool_decide_eq_false_2 ([] ≠ [])) by (by intros ?). cbn [andb].
  set (df := frame_of_bars bars).
  assert (He : empty df = false) by (by destruct bars).
  rewrite He.
  pose proof (clean_data_frame_of_bars bars Hne Hok
                (StronglySorted_lt_le _ Hsorted)) as Hclean.
  fold df in Hclean.
  destruct (process_data (Some df)) as [dfp|] eqn:Hp.
  2:{ unfold process_data in Hp. by rewrite He, Hclean in Hp. }
  destruct (process_data_same_bars df df dfp He Hclean Hp)
    as (Hdates & Hprices & Hcols).
  assert (Hdates' : Row.date <$> rows dfp = b_date <$> bars).
  { rewrite Hdates. unfold df, frame_of_bars. cbn [rows].
    by rewrite <- list_fmap_compose. }
  assert (Hsort : sort_values_date dfp = dfp).
  { unfold sort_values_date. rewrite sort_by_sorted_id; [by destruct dfp|].
    apply ascending_fmap. rewrite Hdates'. by apply StronglySorted_lt_le. }
  rewrite Hsort.
  set (dft := if bool_decide (days < _) then _ else dfp).
  assert (Hrows : rows dft = tail (Z.to_nat days) (rows dfp)).
  { unfold dft. case_bool_decide; [done|]. rewrite tail_ge; [done|lia]. }
  assert (Hlen : length (rows dfp) = length bars).
  { by rewrite <- (length_fmap Row.date), Hdates', length_fmap. }
  assert (Hvol : Forall (λ row, isfinite (Row.volume row) = true) (rows dft)).
  { rewrite Hrows. unfold tail. apply Forall_drop.
    apply Forall_forall. intros row Hrow.
    assert (Hin : Row.volume row ∈ series c_volume dfp).
    { apply list_elem_of_fmap. by exists row. }
    rewrite Hprices in Hin by apply price_column_volume.
    apply list_elem_of_fmap in Hin as (r0 & -> & Hr0).
    apply list_elem_of_fmap in Hr0 as (b & -> & Hb).
    rewrite Forall_forall in Hok.
    destruct (Hok b Hb) as (_ & _ & _ & _ & Hv). exact Hv. }
  destruct (mapM_record_of_row ticker _ Hvol) as (recs & Hm & Hrd & Hrs).
  assert (Hnonempty : recs ≠ []).
  { intros ->. apply (f_equal length) in Hrd.
    rewrite !length_fmap, Hrows, length_tail, Hlen in Hrd. simpl in Hrd.
    destruct bars; [done|]. simpl in Hrd. lia. }
  destruct (fetch_stock_data_logs _ _ _ _ _ _ Hfetch) as [Hstore1 _].
  assert (Hsave : save_new_records env w1 ticker [] dft
                  = inr (set_store recs w1)).
  { unfold save_new_records.
    change (list_to_set (StockData.date <$> [])) with (∅ : gset Z).
    rewrite filter_Forall_id
      by (apply Forall_forall; intros ? _; apply not_elem_of_empty).
    rewrite Hm. destruct recs as [|r recs']; [done|].
    unfold bulk_save. rewrite Hfault, Hstore1, Hstore.
    assert (Hnd : NoDup (StockData.key <$> r :: recs')).
    { apply (NoDup_fmap_1 snd). rewrite <- list_fmap_compose.
      change (snd ∘ StockData.key) with StockData.date.
      rewrite Hrd, Hrows, tail_fmap, Hdates'.
      apply StronglySorted_lt_NoDup. unfold tail.
      by apply StronglySorted_drop. }
    rewrite (bool_decide_eq_true_2 _ Hnd). cbn [andb].
    assert (Hall : forallb (λ r0, bool_decide
                     (StockData.key r0 ∉ StockData.key <$> @nil StockData.t))
                     (r :: recs') = true).
    { apply forallb_forall. intros x _.
      apply bool_decide_eq_true_2, not_elem_of_nil. }
    by rewrite Hall. }
  rewrite Hsave. eexists _, _. split; [done|].
  cbn [body_data body_days store set_store].
  split_and!.
  - by rewrite Hrows, tail_fmap, Hdates'.
  - unfold series. rewrite Hrows, tail_fmap. fold (series c_close dfp).
    rewrite Hprices by apply price_column_close.
    unfold series, df, frame_of_bars. cbn [rows].
    by rewrite <- list_fmap_compose.
  - done.
  - by rewrite Hrd, Hrows, tail_fmap, Hdates'.
  - done.
Qed.

(** C2, as the code has it.  With an empty table, a request for 5 days
    whose fetch returns 10 well-formed bars of increasing dates D1..D10
    answers with exactly the last 5 bars, D6..D10 in ascending order, and
    the merge inserts those 5 rows: the frame is cut to the requested days
    before it is saved. *)
Theorem scenario_trims_before_saving (env : Env) (w w1 : World)
    (symbol : string) (bars : list Bar) :
  strip (upper symbol) ∈ get_available_companies →
  store w = [] →
  db_fault env = None →
  fetch_stock_data env w (strip (upper symbol)) None
    = (w1, Some (frame_of_bars bars)) →
  length bars = 10%nat →
  Forall bar_ok bars →
  StronglySorted Z.lt (b_date <$> bars) →
  ∃ w2 body,
    get_stock_data env w symbol 5 = (w2, Success body) ∧
    Row.date <$> rows (body_data body) = drop 5 (b_date <$> bars) ∧
    series c_close (body_data body) = drop 5 (b_close <$> bars) ∧
    body_days body = 5%nat ∧
    StockData.date <$> store w2 = drop 5 (b_date <$> bars) ∧
    length (store w2) = 5%nat.
Proof.
  intros Hknown Hstore Hfault Hfetch Hlen Hok Hsorted.
  destruct (fetch_into_empty_table env w w1 symbol 5 bars)
    as (w2 & body & Hget & Hd & Hc & Hn & Hs & _);
    [lia|done..| |done|done|].
  { intros ->. discriminate Hlen. }
  assert (Ht : ∀ {B} (l : list B), length l = 10%nat →
               tail (Z.to_nat 5) l = drop 5 l).
  { intros B l Hl. unfold tail. by rewrite Hl. }
  rewrite Ht in Hd, Hc, Hs by (by rewrite length_fmap).
  exists w2, body. split_and!; try done.
  - rewrite Hn, <- (length_fmap Row.date), Hd, length_drop, length_fmap. lia.
  - rewrite <- (length_fmap StockData.date), Hs, length_drop, length_fmap. lia.
Qed.

Lemma scenario_trims_before_saving_witness :
  ∃ w2 body,
    get_stock_data env_tcs world_empty "TCS" 5 = (w2, Success body) ∧
    length (store w2) = 5%nat.
Proof.
  destruct (scenario_trims_before_saving env_tcs world_empty
              (log_fetch "TCS.NS" world_empty) "TCS" ten_bars)
    as (w2 & body & Hget & _ & _ & _ & _ & Hlen);
    [ apply (bool_decide_unpack _); by vm_compute
    | reflexivity | reflexivity | reflexivity | reflexivity
    | apply (bool_decide_unpack _); by vm_compute
    | apply (bool_decide_unpack _); by vm_compute | ].
  exists w2, body. split; [exact Hget|exact Hlen].
Defined.

(** C2 as the spec states it fails: in that scenario the table holds 5
    rows after the request, those of D6..D10, not 10. *)
Lemma scenario_merge_counterexample :
  StockData.date <$> store (get_stock_data env_tcs world_empty "TCS" 5).1
  = [6; 7; 8; 9; 10] ∧
  length ten_bars = 10%nat.
Proof. split; by vm_compute. Qed.

(** ** The summary endpoint *)

(** C4 fails on the summary endpoint.  With TCS stored for two days, highs
    12 and 13, lows 9 and 10, closes 10 and 11, the endpoint answers
    [high_52w = 11] and [low_52w = 10], the extremes of the closes, where
    [calculate_52week_high_low] on the same rows gives 13 and 9. *)
Theorem summary_endpoint_uses_close :
  ∃ body, get_stock_summary world_two_days "TCS" = Success body ∧
    sum_high_52w body = of_Z 11 ∧
    sum_low_52w body = of_Z 10 ∧
    high_52w (calculate_52week_high_low
                (frame_of_records (store world_two_days))) = of_Z 13 ∧
    low_52w (calculate_52week_high_low
               (frame_of_records (store world_two_days))) = of_Z 9.
Proof.
  eexists. split; [by vm_compute|].
  split_and!; apply (bool_decide_unpack _); by vm_compute.
Qed.

(** ** More on the series endpoint *)

Lemma save_new_records_store env w symbol db_records df w' :
  save_new_records env w symbol db_records df = inr w' →
  ∃ new_records,
    store w' = store w ++ new_records ∧
    Forall (λ r, StockData.symbol r = symbol) new_records ∧
    (NoDup (StockData.key <$> store w) → NoDup (StockData.key <$> store w')).
Proof.
  unfold save_new_records.
  destruct (mapM _ _) as [[|r recs]|] eqn:Hm; [| |done].
  { intros [= <-]. exists []. by rewrite app_nil_r. }
  assert (Hsym : Forall (λ r0, StockData.symbol r0 = symbol) (r :: recs)).
  { apply mapM_Some_1 in Hm. apply Forall_forall. intros r0 Hr0.
    apply list_elem_of_lookup in Hr0 as [i Hi].
    destruct (Forall2_lookup_r _ _ _ _ _ Hm Hi) as (row & _ & Hrow).
    by apply record_of_row_key in Hrow as [= -> _]. }
  destruct (bulk_save _ _ _) as [[]|s] eqn:Hb; [| done |].
  { intros [= <-]. exists []. by rewrite app_nil_r. }
  intros [= <-]. apply bulk_save_inr in Hb as (-> & Hnd & Hfresh).
  exists (r :: recs). cbn [store set_store]. split_and!; [done..|].
  intros Hs. rewrite fmap_app. apply NoDup_app. split_and!; [done| |done].
  intros k Hk Hk'. apply list_elem_of_fmap in Hk' as (r0 & -> & Hr0).
  rewrite Forall_forall in Hfresh. by apply (Hfresh r0).
Qed.

Lemma get_stock_data_world env w symbol days w' response :
  get_stock_data env w symbol days = (w', response) →
  ∃ new_records,
    store w' = store w ++ new_records ∧
    Forall (λ r, StockData.symbol r = strip (upper symbol)) new_records ∧
    (NoDup (StockData.key <$> store w) → NoDup (StockData.key <$> store w')).
Proof.
  assert (Hsame : ∀ v : World, store v = store w →
    ∃ new_records, store v = store w ++ new_records ∧
      Forall (λ r, StockData.symbol r = strip (upper symbol)) new_records ∧
      (NoDup (StockData.key <$> store w) → NoDup (StockData.key <$> store v))).
  { intros v Hv. exists []. rewrite app_nil_r, Hv. by split_and!. }
  unfold get_stock_data. intros H.
  destruct (negb (bool_decide (1 ≤ days ≤ 365))); [simplify_eq; by apply Hsame|].
  destruct (bool_decide (symbol = EmptyString)); [simplify_eq; by apply Hsame|].
  destruct (bool_decide (strip (upper symbol) = EmptyString));
    [simplify_eq; by apply Hsame|].
  destruct (negb (bool_decide (strip (upper symbol) ∈ _)));
    [simplify_eq; by apply Hsame|].
  destruct (bool_decide (_ ≠ []) && bool_decide (days ≤ _));
    [simplify_eq; by apply Hsame|].
  destruct (fetch_stock_data env w (strip (upper symbol)) None)
    as [wf fetched] eqn:Hf.
  apply fetch_stock_data_logs in Hf as [Hstore _].
  destruct fetched as [df|]; [|simplify_eq; by apply Hsame].
  destruct (empty df); [simplify_eq; by apply Hsame|].
  destruct (process_data (Some df)) as [dfp|]; [|simplify_eq; by apply Hsame].
  destruct (save_new_records _ _ _ _ _) as [e|ws] eqn:Hs;
    [simplify_eq; by apply Hsame|].
  injection H as <- _.
  apply save_new_records_store in Hs. by rewrite Hstore in Hs.
Qed.

(** X1.  Whatever path answers, the rows of a successful answer of the
    series endpoint are in ascending order of date. *)
Theorem get_stock_data_ascending (env : Env) (w w' : World) (symbol : string)
    (days : Z) (body : SeriesBody) :
  get_stock_data env w symbol days = (w', Success body) →
  ascending Row.date (rows (body_data body)).
Proof.
  unfold get_stock_data. intros H.
  destruct (negb (bool_decide (1 ≤ days ≤ 365))); [done|].
  destruct (bool_decide (symbol = EmptyString)); [done|].
  destruct (bool_decide (strip (upper symbol) = EmptyString)); [done|].
  destruct (negb (bool_decide (strip (upper symbol) ∈ _))); [done|].
  destruct (bool_decide (_ ≠ []) && bool_decide (days ≤ _)).
  { injection H as _ <-. apply sort_by_ascending. }
  destruct (fetch_stock_data env w (strip (upper symbol)) None)
    as [wf fetched].
  destruct fetched as [df|]; [|done].
  destruct (empty df); [done|].
  destruct (process_data (Some df)) as [dfp|]; [|done].
  destruct (save_new_records _ _ _ _ _) as [e|ws]; [done|].
  injection H as _ <-. cbn [body_data].
  case_bool_decide; cbn [rows with_rows sort_values_date].
  - unfold tail. apply ascending_drop, sort_by_ascending.
  - apply sort_by_ascending.
Qed.

Lemma get_stock_data_ascending_witness :
  ∃ body, (get_stock_data env_tcs world_empty "TCS" 5).2 = Success body ∧
          ascending Row.date (rows (body_data body)).
Proof.
  destruct (get_stock_data env_tcs world_empty "TCS" 5)
    as [w' [body|c]] eqn:E; [|vm_compute in E; discriminate E].
  exists body. split; [reflexivity|].
  exact (get_stock_data_ascending _ _ _ _ _ _ E).
Defined.

(** X2.  When the table does not hold enough rows of the window, a
    successful answer comes from the fetch and carries at most [days]
    rows, and its field [days] is the number of rows it carries. *)
Theorem fetch_path_at_most_days (env : Env) (w w' : World) (symbol : string)
    (days : Z) (body : SeriesBody) :
  get_stock_data env w symbol days = (w', Success body) →
  Z.of_nat (length (rows_since (strip (upper symbol)) (today env - days)
                      (store w))) < days →
  Z.of_nat (length (rows (body_data body))) ≤ days ∧
  body_days body = length (rows (body_data body)).
Proof.
  unfold get_stock_data. intros H Hfew.
  destruct (negb (bool_decide (1 ≤ days ≤ 365))); [done|].
  destruct (bool_decide (symbol = EmptyString)); [done|].
  destruct (bool_decide (strip (upper symbol) = EmptyString)); [done|].
  destruct (negb (bool_decide (strip (upper symbol) ∈ _))); [done|].
  rewrite (bool_decide_eq_false_2 (days ≤ _)) in H
    by (rewrite query_since_length; lia).
  rewrite andb_false_r in H.
  destruct (fetch_stock_data env w (strip (upper symbol)) None)
    as [wf fetched].
  destruct fetched as [df|]; [|done].
  destruct (empty df); [done|].
  destruct (process_data (Some df)) as [dfp|]; [|done].
  destruct (save_new_records _ _ _ _ _) as [e|ws]; [done|].
  injection H as _ <-. cbn [body_data body_days]. split; [|done].
  case_bool_decide; cbn [rows with_rows sort_values_date]; [|lia].
  rewrite length_tail. lia.
Qed.

Lemma fetch_path_at_most_days_witness :
  ∃ body, (get_stock_data env_tcs world_empty "TCS" 5).2 = Success body ∧
          Z.of_nat (length (rows (body_data body))) ≤ 5.
Proof.
  destruct (get_stock_data env_tcs world_empty "TCS" 5)
    as [w' [body|c]] eqn:E; [|vm_compute in E; discriminate E].
  exists body. split; [reflexivity|].
  apply (fetch_path_at_most_days _ _ _ _ _ _ E). vm_compute. reflexivity.
Defined.

(** X3.  A request to the series endpoint never deletes or changes a
    stored row: whatever the outcome, the table before is a prefix of the
    table after, and every row added carries the normalised symbol. *)
Theorem get_stock_data_only_appends (env : Env) (w : World) (symbol : string)
    (days : Z) :
  ∃ new_records,
    store (get_stock_data env w symbol days).1 = store w ++ new_records ∧
    Forall (λ r, StockData.symbol r = strip (upper symbol)) new_records.
Proof.
  destruct (get_stock_data env w symbol days) as [w' r] eqn:E.
  destruct (get_stock_data_world _ _ _ _ _ _ E) as (new & Hs & Hsym & _).
  by exists new.
Qed.

(** X4.  The series endpoint keeps the unique key of the table: if no two
    stored rows share [(symbol, date)] before a request, none do after. *)
Theorem get_stock_data_keeps_unique_key (env : Env) (w : World)
    (symbol : string) (days : Z) :
  NoDup (StockData.key <$> store w) →
  NoDup (StockData.key <$> store (get_stock_data env w symbol days).1).
Proof.
  destruct (get_stock_data env w symbol days) as [w' r] eqn:E.
  destruct (get_stock_data_world _ _ _ _ _ _ E) as (new & _ & _ & Hnd).
  exact Hnd.
Qed.

Lemma get_stock_data_keeps_unique_key_witness :
  NoDup (StockData.key <$>
           store (get_stock_data env_day_100 world_two_days "TCS" 30).1).
Proof.
  apply get_stock_data_keeps_unique_key.
  apply (bool_decide_unpack _). vm_compute. exact I.
Defined.

(** X5.  A symbol of ASCII characters that does not normalise to a
    catalogued ticker is turned away with a status 400 or 404 before
    anything else happens: the provider is not called and the table is not
    touched. *)
Theorem get_stock_data_unknown_symbol (env : Env) (w : World)
    (symbol : string) (days : Z) :
  isascii symbol = true →
  1 ≤ days ≤ 365 →
  strip (upper symbol) ∉ get_available_companies →
  ∃ status, get_stock_data env w symbol days = (w, HTTPException status) ∧
            (status = 400 ∨ status = 404).
Proof.
  intros _ Hdays Hunknown. unfold get_stock_data.
  rewrite (bool_decide_eq_true_2 (1 ≤ days ≤ 365)) by done. cbn [negb].
  destruct (bool_decide (symbol = EmptyString)); [by eexists; eauto|].
  destruct (bool_decide (strip (upper symbol) = EmptyString));
    [by eexists; eauto|].
  rewrite (bool_decide_eq_false_2 (_ ∈ _)) by done.
  by eexists; eauto.
Qed.

Lemma get_stock_data_unknown_symbol_witness :
  ∃ status, get_stock_data env_tcs world_empty "AAPL" 30
            = (world_empty, HTTPException status).
Proof.
  destruct (get_stock_data_unknown_symbol env_tcs world_empty "AAPL" 30)
    as (status & E & _);
    [reflexivity | lia | apply (bool_decide_unpack _); vm_compute; exact I |].
  exists status. exact E.
Defined.

(** ** The collector *)

(** X6.  [fetch_stock_data] never hands over an empty frame: when it
    returns a frame, its rows are the bars of a non-empty answer of the
    provider, the answer to the identifier it asked for last; and one call
    asks the provider at most twice. *)
Theorem fetch_stock_data_never_empty (env : Env) (w w' : World)
    (symbol : string) (period : option string) (df : DataFrame) :
  fetch_stock_data env w symbol period = (w', Some df) →
  (∃ identifier fetch_period bars,
     last (fetch_log w') = Some identifier ∧
     history env identifier fetch_period = Some bars ∧
     bars ≠ [] ∧
     rows df = row_of_bar <$> bars) ∧
  empty df = false ∧
  (length (fetch_log w') ≤ length (fetch_log w) + 2)%nat.
Proof.
  unfold fetch_stock_data. intros H.
  destruct (history env _ _) as [[|b bars]|] eqn:H1; [|simplify_eq|done].
  - destruct (endswith _ _); [|done].
    destruct (history env symbol _) as [[|b bars]|] eqn:H2; [done| |done].
    simplify_eq. split_and!; [|done|].
    + eexists _, _, _. split_and!; [|exact H2|done|done].
      cbn [fetch_log log_fetch]. apply last_snoc.
    + cbn [fetch_log log_fetch]. rewrite !length_app. simpl. lia.
  - split_and!; [|done|].
    + eexists _, _, _. split_and!; [|exact H1|done|done].
      cbn [fetch_log log_fetch]. apply last_snoc.
    + cbn [fetch_log log_fetch]. rewrite !length_app. simpl. lia.
Qed.

Lemma fetch_stock_data_never_empty_witness :
  ∃ df, (fetch_stock_data env_tcs world_empty "TCS" None).2 = Some df ∧
        empty df = false.
Proof.
  destruct (fetch_stock_data env_tcs world_empty "TCS" None)
    as [w' [df|]] eqn:E; [|vm_compute in E; discriminate E].
  exists df. split; [reflexivity|].
  exact (proj1 (proj2 (fetch_stock_data_never_empty _ _ _ _ _ _ E))).
Defined.

(** X7.  The fallback of the collector.  For a catalogued ticker the
    provider is asked for the NSE listing first; when that answer is empty,
    it is asked once more for the plain symbol, and the result is the
    second answer: its frame, or nothing when it is empty too. *)
Theorem fetch_stock_data_fallback (env : Env) (w : World) (symbol : string)
    (bars : list Bar) :
  symbol ∈ get_available_companies →
  history env (symbol +:+ ".NS") collector_period = Some [] →
  history env symbol collector_period = Some bars →
  fetch_stock_data env w symbol None
  = (log_fetch symbol (log_fetch (symbol +:+ ".NS") w),
     match bars with [] => None | _ => Some (frame_of_bars bars) end).
Proof.
  intros Hin H1 H2.
  unfold get_available_companies, available_companies, INDIAN_STOCKS in Hin.
  cbn [fmap list_fmap fst] in Hin.
  repeat (apply elem_of_cons in Hin as [->|Hin];
          [unfold fetch_stock_data;
           match goal with
           | |- context [default ?s (dict_get (upper ?s) INDIAN_STOCKS)] =>
               change (default s (dict_get (upper s) INDIAN_STOCKS))
                 with (s +:+ ".NS");
               rewrite H1;
               change (endswith (s +:+ ".NS") ".NS") with true
           end;
           cbv iota; rewrite H2; by destruct bars|]).
  by apply elem_of_nil in Hin.
Qed.

Lemma fetch_stock_data_fallback_witness :
  fetch_stock_data
    (mkEnv 10 (λ identifier _,
                 if bool_decide (identifier = "TCS"%string)
                 then Some ten_bars else Some []) None)
    world_empty "TCS" None
  = (mkWorld [] ["TCS.NS"; "TCS"]%string, Some (frame_of_bars ten_bars)).
Proof.
  exact (fetch_stock_data_fallback
           (mkEnv 10 (λ identifier _,
                        if bool_decide (identifier = "TCS"%string)
                        then Some ten_bars else Some []) None)
           world_empty "TCS" ten_bars
           ltac:(apply (bool_decide_unpack _); vm_compute; exact I)
           eq_refl eq_refl).
Defined.

(** ** The comparison and the summary *)

Lemma get_stock_df_store env w sym w' r :
  get_stock_df env w sym = (w', r) → store w' = store w.
Proof.
  unfold get_stock_df. intros H.
  destruct (bool_decide (_ ≠ []) && bool_decide _); [by simplify_eq|].
  destruct (fetch_stock_data env w sym (Some "1y"%string))
    as [wf fetched] eqn:Hf.
  apply fetch_stock_data_logs in Hf as [Hstore _].
  repeat case_match; by simplify_eq.
Qed.

(** X8.  The comparison endpoint reads the table and may call the
    provider, but it never writes: the table after a comparison is the
    table before it, whatever the outcome. *)
Theorem compare_stocks_never_writes (env : Env) (w : World)
    (symbol1 symbol2 : string) :
  store (compare_stocks env w symbol1 symbol2).1 = store w.
Proof.
  unfold compare_stocks.
  destruct (negb (bool_decide (upper symbol1 ∈ _))); [done|].
  destruct (negb (bool_decide (upper symbol2 ∈ _))); [done|].
  destruct (get_stock_df env w (upper symbol1)) as [w1 r1] eqn:E1.
  apply get_stock_df_store in E1.
  destruct r1 as [df1|c1]; [|done].
  destruct (get_stock_df env w1 (upper symbol2)) as [w2 r2] eqn:E2.
  apply get_stock_df_store in E2.
  destruct r2 as [df2|c2]; [|simpl; congruence].
  destruct (empty df1); [simpl; congruence|].
  destruct (empty df2); simpl; congruence.
Qed.

(** X9.  A comparison of two symbols of ASCII characters, one of which
    is outside the catalogue, ends in a status 404 at once: the provider
    is not called and the table is not read. *)
Theorem compare_stocks_unknown_symbol (env : Env) (w : World)
    (symbol1 symbol2 : string) :
  isascii symbol1 = true →
  isascii symbol2 = true →
  upper symbol1 ∉ get_available_companies ∨
  upper symbol2 ∉ get_available_companies →
  compare_stocks env w symbol1 symbol2 = (w, HTTPException 404).
Proof.
  intros _ _ H. unfold compare_stocks.
  destruct (bool_decide (upper symbol1 ∈ _)) eqn:E1; [|done].
  destruct (bool_decide (upper symbol2 ∈ _)) eqn:E2; [|done].
  apply bool_decide_eq_true_1 in E1, E2. by destruct H.
Qed.

Lemma compare_stocks_unknown_symbol_witness :
  compare_stocks env_same_bars world_empty "TCS" "AAPL"
  = (world_empty, HTTPException 404).
Proof.
  apply compare_stocks_unknown_symbol; [reflexivity|reflexivity|]. right.
  apply (bool_decide_unpack _). vm_compute. exact I.
Defined.

Lemma ascending_last {A} (key : A → Z) (l : list A) (x : A) :
  ascending key l → last l = Some x → ∀ y, y ∈ l → key y ≤ key x.
Proof.
  unfold ascending. induction 1 as [|a l Hl IH Ha]; [done|].
  intros Hlast y Hy. destruct l as [|b l'].
  - simplify_eq/=. apply list_elem_of_singleton in Hy as ->. lia.
  - change (last (a :: b :: l')) with (last (b :: l')) in Hlast.
    apply elem_of_cons in Hy as [->|Hy]; [|by apply IH].
    rewrite Forall_forall in Ha. apply Ha.
    by eapply last_Some_elem_of.
Qed.

Lemma elem_of_query_all symbol s r :
  r ∈ query_all symbol s ↔ r ∈ s ∧ StockData.symbol r = symbol.
Proof.
  unfold query_all. rewrite sort_by_perm, list_elem_of_filter. tauto.
Qed.

(** X10.  For a symbol of ASCII characters, the summary endpoint answers
    404 exactly when the table holds no row of the upper-cased symbol. *)
Theorem get_stock_summary_not_found (w : World) (symbol : string) :
  isascii symbol = true →
  get_stock_summary w symbol = HTTPException 404 ↔
  ∀ r, r ∈ store w → StockData.symbol r ≠ upper symbol.
Proof.
  intros _. unfold get_stock_summary.
  destruct (query_all (upper symbol) (store w)) as [|r0 rs] eqn:E.
  - split; [|done]. intros _ r Hr Hsym.
    assert (Hin : r ∈ query_all (upper symbol) (store w))
      by by apply elem_of_query_all.
    rewrite E in Hin. by apply elem_of_nil in Hin.
  - split.
    + cbn. destruct (last _); done.
    + intros Hnone. exfalso.
      assert (Hin : r0 ∈ query_all (upper symbol) (store w))
        by (rewrite E; left).
      apply elem_of_query_all in Hin as [Hin Hsym]. by apply (Hnone r0).
Qed.

Lemma get_stock_summary_not_found_witness :
  get_stock_summary world_two_days "infy" = HTTPException 404.
Proof.
  apply (get_stock_summary_not_found world_two_days "infy" eq_refl).
  intros r Hr.
  assert (HF : Forall (λ r, StockData.symbol r ≠ upper "infy")
                      (store world_two_days))
    by (apply (bool_decide_unpack _); vm_compute; exact I).
  exact (proj1 (Forall_forall _ _) HF r Hr).
Defined.

(** X11.  In a summary, [current_close] is the close of a stored row of
    the symbol that no other row of the symbol is dated after. *)
Theorem get_stock_summary_current_close (w : World) (symbol : string)
    (body : SummaryBody) :
  get_stock_summary w symbol = Success body →
  ∃ r, r ∈ store w ∧ StockData.symbol r = upper symbol ∧
       sum_current_close body = StockData.close r ∧
       ∀ r', r' ∈ store w → StockData.symbol r' = upper symbol →
             StockData.date r' ≤ StockData.date r.
Proof.
  unfold get_stock_summary.
  destruct (query_all (upper symbol) (store w)) as [|r0 rs] eqn:E; [done|].
  rewrite <- E. clear r0 rs E.
  cbn [rows columns]. destruct (_ || _); [done|].
  unfold series. cbn [rows]. rewrite <- list_fmap_compose, fmap_last.
  destruct (last (query_all (upper symbol) (store w))) as [r|] eqn:Hlast;
    [|done].
  intros [= <-]. exists r.
  assert (Hr : r ∈ query_all (upper symbol) (store w))
    by by eapply last_Some_elem_of.
  apply elem_of_query_all in Hr as [Hr Hsym].
  split_and!; [done..|].
  intros r' Hr' Hsym'.
  apply (ascending_last StockData.date _ _ (sort_by_ascending _ _) Hlast).
  by apply elem_of_query_all.
Qed.

Lemma get_stock_summary_current_close_witness :
  ∃ body, get_stock_summary world_two_days "tcs" = Success body ∧
          ∃ r, r ∈ store world_two_days ∧
               sum_current_close body = StockData.close r.
Proof.
  destruct (get_stock_summary world_two_days "tcs") as [body|c] eqn:E;
    [|vm_compute in E; discriminate E].
  exists body. split; [reflexivity|].
  destruct (get_stock_summary_current_close _ _ _ E) as (r & Hr & _ & Hc & _).
  exists r. split; [exact Hr|exact Hc].
Defined.

(** ** What is written and what is read back *)

(** X12.  A row of the fetched frame and the row read back from the
    record built of it agree on the date and on every float column but
    [volume]; the volume read back is the stored integer, the volume
    truncated towards zero, or NaN when it was NaN.  A NaN in a derived
    column is stored as NULL and read back as NaN. *)
Theorem record_of_row_read_back (symbol : string) (row : Row.t)
    (r : StockData.t) :
  record_of_row symbol row = Some r →
  StockData.symbol r = symbol ∧
  Row.date (row_of_record r) = Row.date row ∧
  (∀ c, c ≠ c_volume → get_col c (row_of_record r) = get_col c row) ∧
  (Row.volume row = NaN → Row.volume (row_of_record r) = NaN) ∧
  (∀ q, Row.volume row = Fin q →
        Row.volume (row_of_record r)
        = of_Z (Z.quot (Qnum q) (Z.pos (Qden q)))).
Proof.
  unfold record_of_row. intros H.
  destruct row as [d o h l c v dr ma vs]. cbn in H.
  assert (Hn : ∀ x, default NaN (nullable x) = x) by (by intros []).
  destruct v as [q| | |]; simplify_eq/=;
    (split_and!; [done|done| |done|]);
    try (intros c0 Hc0; destruct c0; simpl; rewrite ?Hn; done);
    try done.
  by intros q0 [= ->].
Qed.

Lemma record_of_row_read_back_witness :
  ∃ r, record_of_row "TCS" (row_of_bar (demo_bar 1 10 11)) = Some r ∧
       StockData.symbol r = "TCS"%string.
Proof.
  destruct (record_of_row "TCS" (row_of_bar (demo_bar 1 10 11)))
    as [r|] eqn:E; [|vm_compute in E; discriminate E].
  exists r. split; [reflexivity|].
  by destruct (record_of_row_read_back _ _ _ E) as (Hs & _).
Defined.

(** ** The cleaning stage *)

Lemma length_ffill_from last l : length (ffill_from last l) = length l.
Proof. revert last. induction l as [|x l IH]; intros last; simpl; by f_equal. Qed.

Lemma length_ffill l : length (ffill l) = length l.
Proof. apply length_ffill_from. Qed.

Lemma length_bfill l : length (bfill l) = length l.
Proof. induction l as [|x l IH]; simpl; by f_equal. Qed.

Lemma map_series_columns c f df : columns (map_series c f df) = columns df.
Proof.
  unfold map_series. destruct (has_col _ _) eqn:E; [|done].
  unfold assign. cbn. by rewrite E.
Qed.

Lemma map_series_dates c f df :
  (∀ l, length (f l) = length l) →
  Row.date <$> rows (map_series c f df) = Row.date <$> rows df.
Proof.
  intros Hf. unfold map_series. destruct (has_col _ _); [|done].
  apply assign_dates. by rewrite Hf, length_series.
Qed.

Lemma foldl_map_series_shape f cs df :
  (∀ l, length (f l) = length l) →
  columns (foldl (λ d c, map_series c f d) df cs) = columns df ∧
  Row.date <$> rows (foldl (λ d c, map_series c f d) df cs)
  = Row.date <$> rows df.
Proof.
  intros Hf. revert df. induction cs as [|c cs IH]; intros df; [done|].
  cbn [foldl]. destruct (IH (map_series c f df)) as [-> ->].
  by rewrite map_series_columns, map_series_dates.
Qed.

Lemma all_na_dated df r : has_col "date" df = true → all_na df r = false.
Proof. intros H. unfold all_na. by rewrite H. Qed.

Lemma has_col_columns name df df' :
  columns df' = columns df → has_col name df' = has_col name df.
Proof. unfold has_col. by intros ->. Qed.

(** What [clean_data] returns for a frame with the columns [date] and
    [close]. *)
Lemma clean_data_shape (df : DataFrame) :
  has_col "date" df = true →
  has_col "close" df = true →
  ∃ df_clean,
    clean_data (Some df) = Some df_clean ∧
    columns df_clean = columns df ∧
    Forall (λ r, fgt (Row.close r) (Fin Qc0) = true) (rows df_clean) ∧
    ascending Row.date (rows df_clean) ∧
    Row.date <$> rows df_clean ⊆+ Row.date <$> rows df.
Proof.
  intros Hdate Hclose. unfold clean_data.
  destruct (empty df) eqn:Hempty.
  { exists df. unfold empty in Hempty.
    destruct (columns df) as [|name names] eqn:Hc.
    - unfold has_col in Hdate. rewrite Hc in Hdate.
      by apply bool_decide_eq_true_1, elem_of_nil in Hdate.
    - destruct (rows df) as [|r rs] eqn:Hr; [|done].
      split_and!; [done|done|constructor|apply SSorted_nil|done]. }
  rewrite (filter_Forall_id (λ r, all_na df r = false))
    by (apply Forall_forall; intros r _; by apply all_na_dated).
  assert (Hdf : with_rows df (rows df) = df) by by destruct df.
  rewrite Hdf.
  set (df2 := foldl (λ d c, map_series c ffill d) df price_columns).
  set (df3 := foldl (λ d c, map_series c bfill d) df2 all_cols).
  destruct (foldl_map_series_shape ffill price_columns df length_ffill)
    as [Hc2 Hd2].
  destruct (foldl_map_series_shape bfill all_cols df2 length_bfill)
    as [Hc3 Hd3].
  fold df2 in Hc2, Hd2. fold df3 in Hc3, Hd3.
  assert (Hcols : columns df3 = columns df) by congruence.
  rewrite (has_col_columns "close" df df3) by done. rewrite Hclose.
  rewrite (has_col_columns "date" df (with_rows df3 _)) by done.
  rewrite Hdate. eexists. split; [done|].
  cbn [columns rows sort_values_date with_rows].
  split_and!; [done| | |].
  - rewrite sort_by_perm. apply Forall_forall. intros r Hr.
    by apply list_elem_of_filter in Hr as [Hr _].
  - apply sort_by_ascending.
  - rewrite sort_by_perm, <- Hd2, <- Hd3.
    apply fmap_submseteq, sublist_submseteq, sublist_filter.
Qed.

(** X13.  Cleaning a frame that has the columns [date] and [close]
    keeps its column names, leaves only rows of positive close, in
    ascending order of date, and invents no row: the dates of the result
    are dates of the input, each no more often than there. *)
Theorem clean_data_postcondition (df df_clean : DataFrame) :
  has_col "date" df = true →
  has_col "close" df = true →
  clean_data (Some df) = Some df_clean →
  columns df_clean = columns df ∧
  Forall (λ r, fgt (Row.close r) (Fin Qc0) = true) (rows df_clean) ∧
  ascending Row.date (rows df_clean) ∧
  Row.date <$> rows df_clean ⊆+ Row.date <$> rows df ∧
  (length (rows df_clean) ≤ length (rows df))%nat.
Proof.
  intros Hdate Hclose Hclean.
  destruct (clean_data_shape df Hdate Hclose) as (df' & E & Hc & Hp & Ha & Hs).
  rewrite Hclean in E. injection E as <-.
  split_and!; [done..|].
  apply submseteq_length in Hs. by rewrite !length_fmap in Hs.
Qed.

Lemma clean_data_postcondition_witness :
  ∃ df_clean,
    clean_data (Some (frame_of_bars untidy_bars)) = Some df_clean ∧
    (length (rows df_clean) ≤ 3)%nat.
Proof.
  destruct (clean_data (Some (frame_of_bars untidy_bars)))
    as [df_clean|] eqn:E; [|vm_compute in E; discriminate E].
  exists df_clean. split; [reflexivity|].
  destruct (clean_data_postcondition (frame_of_bars untidy_bars) df_clean)
    as (_ & _ & _ & _ & Hlen); [reflexivity|reflexivity|exact E|].
  exact Hlen.
Defined.

(** ** The derived columns *)

Lemma fillna0_defined x : defined (fillna0 x).
Proof. by destruct x. Qed.

Lemma daily_return_defined df :
  has_col "open" df = true → has_col "close" df = true →
  Forall defined (series c_daily_return (calculate_daily_return df)).
Proof.
  intros Ho Hc. unfold calculate_daily_return. rewrite Ho, Hc. cbn [andb].
  rewrite assign_same by by rewrite length_fmap.
  apply Forall_fmap, Forall_forall. intros r _. apply fillna0_defined.
Qed.

Lemma calculate_daily_return_has df :
  has_col "open" df = true → has_col "close" df = true →
  has_col "daily_return" (calculate_daily_return df) = true.
Proof.
  intros Ho Hc. unfold calculate_daily_return. rewrite Ho, Hc.
  apply (assign_has_own c_daily_return).
Qed.

Lemma calculate_moving_average_daily_return df w :
  series c_daily_return (calculate_moving_average df w)
  = series c_daily_return df.
Proof.
  unfold calculate_moving_average. destruct (has_col _ _); [|done].
  apply assign_other; [done|].
  unfold rolling_mean. by rewrite length_rolling, length_series.
Qed.

Lemma calculate_volatility_score_with df w :
  has_col "daily_return" df = true →
  calculate_volatility_score df w
  = assign c_volatility_score
      ((λ v, fillna0 (fmul v (of_Z 252)))
         <$> rolling_var w (series c_daily_return df))
      df.
Proof.
  intros H. unfold calculate_volatility_score. cbv zeta.
  rewrite H. cbv iota. by rewrite H.
Qed.

Lemma calculate_volatility_score_daily_return df w :
  has_col "daily_return" df = true →
  series c_daily_return (calculate_volatility_score df w)
  = series c_daily_return df.
Proof.
  intros H. rewrite calculate_volatility_score_with by done.
  apply assign_other; [done|].
  unfold rolling_var. by rewrite length_fmap, length_rolling, length_series.
Qed.

Lemma volatility_score_defined df w :
  has_col "daily_return" df = true →
  Forall defined (series c_volatility_score (calculate_volatility_score df w)).
Proof.
  intros H. rewrite calculate_volatility_score_with by done.
  rewrite assign_same
    by (unfold rolling_var;
        by rewrite length_fmap, length_rolling, length_series).
  apply Forall_fmap, Forall_forall. intros r _. apply fillna0_defined.
Qed.

Lemma process_data_metrics (df df_processed : DataFrame) :
  has_col "date" df = true →
  has_col "open" df = true →
  has_col "close" df = true →
  process_data (Some df) = Some df_processed →
  Forall defined (series c_daily_return df_processed) ∧
  Forall defined (series c_volatility_score df_processed) ∧
  Forall (λ c, fgt c (Fin Qc0) = true) (series c_close df_processed).
Proof.
  intros Hdate Hopen Hclose Hp.
  destruct (empty df) eqn:Hempty.
  { unfold process_data in Hp. rewrite Hempty in Hp. injection Hp as <-.
    unfold empty in Hempty. unfold series.
    destruct (columns df) as [|name names] eqn:Hc.
    - unfold has_col in Hdate. rewrite Hc in Hdate.
      by apply bool_decide_eq_true_1, elem_of_nil in Hdate.
    - destruct (rows df); [|done]. by split_and!; constructor. }
  destruct (clean_data_shape df Hdate Hclose)
    as (df_clean & Hclean & Hcols & Hpos & _).
  destruct (process_data_same_bars _ _ _ Hempty Hclean Hp) as (_ & Hprice & _).
  unfold process_data in Hp. rewrite Hempty, Hclean in Hp.
  injection Hp as <-.
  assert (Ho : has_col "open" df_clean = true)
    by by rewrite (has_col_columns _ df).
  assert (Hc : has_col "close" df_clean = true)
    by by rewrite (has_col_columns _ df).
  assert (Hdr : has_col "daily_return"
                  (calculate_moving_average (calculate_daily_return df_clean) 7)
                = true).
  { unfold calculate_moving_average.
    destruct (has_col "close" (calculate_daily_return df_clean));
      [apply assign_columns_has|]; by apply calculate_daily_return_has. }
  split_and!.
  - rewrite calculate_volatility_score_daily_return by done.
    rewrite calculate_moving_average_daily_return.
    by apply daily_return_defined.
  - by apply volatility_score_defined.
  - rewrite (Hprice c_close price_column_close).
    unfold series. by apply Forall_fmap.
Qed.

(** X14.  In a processed frame no [daily_return] and no
    [volatility_score] is NaN, and every close is positive. *)
Theorem process_data_no_missing_metric (df df_processed : DataFrame) :
  has_col "date" df = true →
  has_col "open" df = true →
  has_col "close" df = true →
  process_data (Some df) = Some df_processed →
  Forall defined (series c_daily_return df_processed) ∧
  Forall defined (series c_volatility_score df_processed) ∧
  Forall (λ c, fgt c (Fin Qc0) = true) (series c_close df_processed).
Proof. apply process_data_metrics. Qed.

Lemma process_data_no_missing_metric_witness :
  ∃ df, process_data (Some (frame_of_bars ten_bars)) = Some df ∧
        Forall defined (series c_volatility_score df).
Proof.
  destruct (process_data (Some (frame_of_bars ten_bars)))
    as [df|] eqn:E; [|vm_compute in E; discriminate E].
  exists df. split; [reflexivity|].
  destruct (process_data_no_missing_metric (frame_of_bars ten_bars) df)
    as (_ & Hvs & _); [reflexivity|reflexivity|reflexivity|exact E|].
  exact Hvs.
Defined.

Lemma fvar_short (l : list fval) : (length l ≤ 1)%nat → fvar l = NaN.
Proof.
  intros Hl. unfold fvar.
  assert (Hd : (length (dropna l) ≤ 1)%nat).
  { etrans; [|exact Hl]. apply length_filter. }
  destruct (dropna l) as [|x [|y v]]; [done|done|simpl in Hd; lia].
Qed.

(** X15.  The volatility score of the first row is 0: its window holds
    one return, which has no sample standard deviation, and the missing
    value is replaced by 0. *)
Theorem volatility_score_first_row (df : DataFrame) (w : nat)
    (r : Row.t) :
  has_col "daily_return" df = true ∨
  has_col "open" df = true ∧ has_col "close" df = true →
  rows (calculate_volatility_score df w) !! 0%nat = Some r →
  Row.volatility_score r = Fin Qc0.
Proof.
  intros Hcols Hr.
  assert (Hs : series c_volatility_score (calculate_volatility_score df w)
               !! 0%nat = Some (Row.volatility_score r)).
  { unfold series. by rewrite list_lookup_fmap, Hr. }
  unfold calculate_volatility_score in Hs.
  set (df_result := if has_col "daily_return" df then df
                    else calculate_daily_return df) in *.
  assert (Hhas : has_col "daily_return" df_result = true).
  { unfold df_result. destruct (has_col "daily_return" df) eqn:E; [done|].
    destruct Hcols as [?|[??]]; [done|]. by apply calculate_daily_return_has. }
  rewrite Hhas in Hs.
  rewrite assign_same in Hs
    by (unfold rolling_var;
        by rewrite length_fmap, length_rolling, length_series).
  rewrite list_lookup_fmap in Hs.
  destruct (rolling_var w (series c_daily_return df_result) !! 0%nat)
    as [v|] eqn:Hv; [|done].
  injection Hs as <-.
  unfold rolling_var in Hv.
  assert (Hlen : (0 < length (series c_daily_return df_result))%nat).
  { apply lookup_lt_Some in Hv. by rewrite length_rolling in Hv. }
  rewrite rolling_lookup in Hv by done. injection Hv as <-.
  rewrite fvar_short; [done|].
  unfold window. rewrite length_drop, length_take. lia.
Qed.

Lemma volatility_score_first_row_witness :
  ∃ r, rows (calculate_volatility_score (frame_of_bars ten_bars) 30) !! 0%nat
       = Some r ∧
       Row.volatility_score r = Fin Qc0.
Proof.
  destruct (rows (calculate_volatility_score (frame_of_bars ten_bars) 30)
              !! 0%nat) as [r|] eqn:E; [|vm_compute in E; discriminate E].
  exists r. split; [reflexivity|].
  apply (volatility_score_first_row (frame_of_bars ten_bars) 30 r);
    [right; split; reflexivity|exact E].
Defined.

Lemma window_full {A} w i (l : list A) :
  (w ≤ S i)%nat → window w i l = take w (drop (S i - w) l).
Proof.
  intros Hw. unfold window. rewrite take_drop_commute.
  by replace (S i - w + w)%nat with (S i) by lia.
Qed.

(** X16.  From the seventh row on, [ma_7] is the plain mean of the
    closes of the row and of the six rows before it, and of no other. *)
Theorem moving_average_full_window (df : DataFrame) (i : nat) (r : Row.t) :
  has_col "close" df = true →
  rows df !! i = Some r →
  (6 ≤ i)%nat →
  let last_seven := take 7 (drop (i - 6) (series c_close df)) in
  length last_seven = 7%nat ∧
  ∃ v, rows (calculate_moving_average df 7) !! i = Some (set_col c_ma_7 v r) ∧
    (Forall (λ x, isfinite x = true) last_seven → v = mean_of last_seven).
Proof.
  intros Hc Hr Hi last_seven.
  assert (Hlen : (i < length (series c_close df))%nat).
  { unfold series. rewrite length_fmap. by eapply lookup_lt_Some. }
  assert (H7 : length last_seven = 7%nat).
  { unfold last_seven. rewrite length_take, length_drop. lia. }
  split; [done|].
  exists (fmean last_seven). split.
  - unfold calculate_moving_average. rewrite Hc.
    apply lookup_assign; [done|].
    unfold rolling_mean. rewrite rolling_lookup by done.
    rewrite window_full by lia.
    by replace (S i - 7)%nat with (i - 6)%nat by lia.
  - intros Hall. apply fmean_defined.
    + intros E. by rewrite E in H7.
    + eapply Forall_impl; [exact Hall|]. intros x. apply isfinite_defined.
Qed.

Lemma moving_average_full_window_witness :
  ∃ v, rows (calculate_moving_average (frame_of_bars ten_bars) 7) !! 7%nat
       = Some (set_col c_ma_7 v (row_of_bar (demo_bar 8 14 16))).
Proof.
  destruct (moving_average_full_window (frame_of_bars ten_bars) 7
              (row_of_bar (demo_bar 8 14 16)))
    as (_ & v & Hv & _); [reflexivity|reflexivity|lia|].
  exists v. exact Hv.
Defined.

(** ** The 52-week range *)

Lemma fgt_not_trans x y z :
  defined y → fgt x y = false → fgt y z = false → fgt x z = false.
Proof.
  destruct x as [a| | |], y as [b| | |], z as [c| | |]; simpl; try done.
  rewrite !bool_decide_eq_false. intros _ H1 H2 H3.
  apply Qcnot_lt_le in H1, H2.
  apply (Qclt_not_le _ _ H3). by eapply Qcle_trans.
Qed.

Lemma fmax_defined x y : defined x → defined y → defined (fmax x y).
Proof. unfold fmax. by destruct (fgt y x). Qed.

Lemma fmin_defined x y : defined x → defined y → defined (fmin x y).
Proof. unfold fmin. by destruct (fgt x y). Qed.

Lemma fmax_elem x y : fmax x y = x ∨ fmax x y = y.
Proof. unfold fmax. destruct (fgt y x); auto. Qed.

Lemma fmin_elem x y : fmin x y = x ∨ fmin x y = y.
Proof. unfold fmin. destruct (fgt x y); auto. Qed.

Lemma fmax_ub x y : fgt x (fmax x y) = false ∧ fgt y (fmax x y) = false.
Proof.
  unfold fmax. destruct (fgt y x) eqn:E.
  - split; [by apply fgt_asym|apply fgt_irrefl].
  - split; [apply fgt_irrefl|done].
Qed.

Lemma fmin_lb x y : fgt (fmin x y) x = false ∧ fgt (fmin x y) y = false.
Proof.
  unfold fmin. destruct (fgt x y) eqn:E.
  - split; [by apply fgt_asym|apply fgt_irrefl].
  - split; [apply fgt_irrefl|done].
Qed.

Lemma foldl_fmax_bound x v :
  Forall defined (x :: v) →
  foldl fmax x v ∈ x :: v ∧ ∀ y, y ∈ x :: v → fgt y (foldl fmax x v) = false.
Proof.
  revert x. induction v as [|z v IH]; intros x Hd; cbn [foldl].
  - split; [left|]. intros y ->%list_elem_of_singleton. apply fgt_irrefl.
  - apply Forall_cons in Hd as [Hx Hd]. apply Forall_cons in Hd as [Hz Hv].
    assert (Hxz : defined (fmax x z)) by by apply fmax_defined.
    destruct (IH (fmax x z)) as [Hin Hub]; [by constructor|]. split.
    + apply elem_of_cons in Hin as [Hin|Hin]; [|by do 2 right].
      rewrite Hin. destruct (fmax_elem x z) as [->| ->]; [left|right; left].
    + assert (Hm : fgt (fmax x z) (foldl fmax (fmax x z) v) = false)
        by (apply Hub; left).
      destruct (fmax_ub x z) as [Hux Huz].
      intros y Hy.
      apply elem_of_cons in Hy as [->|Hy];
        [by apply (fgt_not_trans _ (fmax x z))|].
      apply elem_of_cons in Hy as [->|Hy];
        [by apply (fgt_not_trans _ (fmax x z))|].
      apply Hub. by right.
Qed.

Lemma foldl_fmin_bound x v :
  Forall defined (x :: v) →
  foldl fmin x v ∈ x :: v ∧ ∀ y, y ∈ x :: v → fgt (foldl fmin x v) y = false.
Proof.
  revert x. induction v as [|z v IH]; intros x Hd; cbn [foldl].
  - split; [left|]. intros y ->%list_elem_of_singleton. apply fgt_irrefl.
  - apply Forall_cons in Hd as [Hx Hd]. apply Forall_cons in Hd as [Hz Hv].
    assert (Hxz : defined (fmin x z)) by by apply fmin_defined.
    destruct (IH (fmin x z)) as [Hin Hlb]; [by constructor|]. split.
    + apply elem_of_cons in Hin as [Hin|Hin]; [|by do 2 right].
      rewrite Hin. destruct (fmin_elem x z) as [->| ->]; [left|right; left].
    + assert (Hm : fgt (foldl fmin (fmin x z) v) (fmin x z) = false)
        by (apply Hlb; left).
      destruct (fmin_lb x z) as [Hlx Hlz].
      intros y Hy.
      apply elem_of_cons in Hy as [->|Hy];
        [by apply (fgt_not_trans _ (fmin x z))|].
      apply elem_of_cons in Hy as [->|Hy];
        [by apply (fgt_not_trans _ (fmin x z))|].
      apply Hlb. by right.
Qed.

Lemma dropna_defined l : Forall defined (dropna l).
Proof.
  apply Forall_forall. intros x Hx.
  by apply list_elem_of_filter in Hx as [Hx _].
Qed.

Lemma elem_of_dropna x l : x ∈ dropna l ↔ defined x ∧ x ∈ l.
Proof. unfold dropna. by rewrite list_elem_of_filter. Qed.

(** [Series.max()]: a cell of the series that no cell exceeds. *)
Lemma series_max_spec l x :
  x ∈ l → defined x →
  series_max l ∈ l ∧ defined (series_max l) ∧ fgt x (series_max l) = false.
Proof.
  intros Hx Hd. unfold series_max.
  assert (Hin : x ∈ dropna l) by by apply elem_of_dropna.
  pose proof (dropna_defined l) as Hall.
  assert (Hsub : ∀ y, y ∈ dropna l → y ∈ l ∧ defined y).
  { intros y Hy. apply elem_of_dropna in Hy. tauto. }
  destruct (dropna l) as [|a v]; [by apply elem_of_nil in Hin|].
  destruct (foldl_fmax_bound a v Hall) as [Hm Hub].
  destruct (Hsub _ Hm). split_and!; [done..|]. by apply Hub.
Qed.

Lemma series_min_spec l x :
  x ∈ l → defined x →
  series_min l ∈ l ∧ defined (series_min l) ∧ fgt (series_min l) x = false.
Proof.
  intros Hx Hd. unfold series_min.
  assert (Hin : x ∈ dropna l) by by apply elem_of_dropna.
  pose proof (dropna_defined l) as Hall.
  assert (Hsub : ∀ y, y ∈ dropna l → y ∈ l ∧ defined y).
  { intros y Hy. apply elem_of_dropna in Hy. tauto. }
  destruct (dropna l) as [|a v]; [by apply elem_of_nil in Hin|].
  destruct (foldl_fmin_bound a v Hall) as [Hm Hlb].
  destruct (Hsub _ Hm). split_and!; [done..|]. by apply Hlb.
Qed.




(** ** The summary statistics *)

Lemma foldl_min_bound (d : Z) (ds : list Z) :
  foldl Z.min d ds ∈ d :: ds ∧ ∀ x, x ∈ d :: ds → foldl Z.min d ds ≤ x.
Proof.
  revert d. induction ds as [|e ds IH]; intros d; cbn [foldl].
  - split; [left|]. intros x ->%list_elem_of_singleton. lia.
  - destruct (IH (Z.min d e)) as [Hin Hlb]. split.
    + apply elem_of_cons in Hin as [Hin|Hin]; [|by do 2 right].
      rewrite Hin. destruct (Z.min_spec d e) as [[_ ->]|[_ ->]];
        [left|right; left].
    + assert (Hm : foldl Z.min (Z.min d e) ds ≤ Z.min d e)
        by (apply Hlb; left).
      intros x Hx. apply elem_of_cons in Hx as [->|Hx]; [lia|].
      apply elem_of_cons in Hx as [->|Hx]; [lia|].
      apply Hlb. by right.
Qed.

Lemma foldl_max_bound (d : Z) (ds : list Z) :
  foldl Z.max d ds ∈ d :: ds ∧ ∀ x, x ∈ d :: ds → x ≤ foldl Z.max d ds.
Proof.
  revert d. induction ds as [|e ds IH]; intros d; cbn [foldl].
  - split; [left|]. intros x ->%list_elem_of_singleton. lia.
  - destruct (IH (Z.max d e)) as [Hin Hub]. split.
    + apply elem_of_cons in Hin as [Hin|Hin]; [|by do 2 right].
      rewrite Hin. destruct (Z.max_spec d e) as [[_ ->]|[_ ->]];
        [right; left|left].
    + assert (Hm : Z.max d e ≤ foldl Z.max (Z.max d e) ds)
        by (apply Hub; left).
      intros x Hx. apply elem_of_cons in Hx as [->|Hx]; [lia|].
      apply elem_of_cons in Hx as [->|Hx]; [lia|].
      apply Hub. by right.
Qed.

(** X18.  The summary statistics of a frame that is not empty and has a
    [date] column: [total_records] is the number of rows, the date range
    runs from the earliest to the latest date of the rows, whatever their
    order, and [current_close] is never NaN. *)
Theorem get_summary_stats_range (df : DataFrame) :
  empty df = false →
  has_col "date" df = true →
  ∃ summary date_start date_end,
    get_summary_stats (Some df) = Some summary ∧
    s_total_records summary = length (rows df) ∧
    s_date_range summary = (Some date_start, Some date_end) ∧
    date_start ∈ Row.date <$> rows df ∧
    date_end ∈ Row.date <$> rows df ∧
    (∀ r, r ∈ rows df → date_start ≤ Row.date r ≤ date_end) ∧
    defined (s_current_close summary).
Proof.
  intros Hempty Hdate. unfold get_summary_stats. rewrite Hempty, Hdate.
  destruct (rows df) as [|r0 rs] eqn:Hrows.
  { unfold empty in Hempty. rewrite Hrows in Hempty.
    by destruct (columns df). }
  rewrite fmap_cons.
  destruct (foldl_min_bound (Row.date r0) (Row.date <$> rs)) as [Hlo Hlb].
  destruct (foldl_max_bound (Row.date r0) (Row.date <$> rs)) as [Hhi Hub].
  eexists _, _, _. split; [done|]. cbn [s_total_records s_date_range
    s_current_close]. split_and!; [done|done|done|done| |].
  - intros r Hr.
    assert (Hd : Row.date r ∈ Row.date r0 :: (Row.date <$> rs)).
    { rewrite <- fmap_cons. by apply list_elem_of_fmap_2. }
    split; [by apply Hlb|by apply Hub].
  - destruct (last (r0 :: rs)) as [latest|]; [|done].
    destruct (has_col "close" df); [|done]. cbn [andb].
    by destruct (notna (Row.close latest)) eqn:E.
Qed.

Lemma get_summary_stats_range_witness :
  ∃ summary, get_summary_stats (Some (frame_of_bars ten_bars)) = Some summary ∧
             s_total_records summary = 10%nat.
Proof.
  destruct (get_summary_stats_range (frame_of_bars ten_bars))
    as (summary & lo & hi & E & Hn & _); [reflexivity|reflexivity|].
  exists summary. split; [exact E|exact Hn].
Defined.

(** ** The correlation, further *)

Lemma Qc_square_nonneg (x : Qc) : (Qc0 ≤ x * x)%Qc.
Proof.
  destruct (Qclt_le_dec x Qc0) as [H|H].
  - replace (x * x)%Qc with ((- x) * (- x))%Qc by ring.
    assert (Hn : (Qc0 ≤ - x)%Qc).
    { apply Qclt_le_weak, Qcopp_le_compat in H. exact H. }
    by apply Qcmult_nonneg_nonneg.
  - by apply Qcmult_nonneg_nonneg.
Qed.

Lemma Qcsum_nonneg (l : list Qc) :
  Forall (λ x, Qc0 ≤ x)%Qc l → (Qc0 ≤ Qcsum l)%Qc.
Proof.
  induction 1 as [|x l Hx Hl IH]; simpl; [done|].
  by apply Qcplus_nonneg_nonneg.
Qed.

Lemma Qcsum_squares_nonneg {A} (g : A → Qc) (l : list A) :
  (Qc0 ≤ Qcsum ((λ p, g p * g p)%Qc <$> l))%Qc.
Proof.
  apply Qcsum_nonneg, Forall_fmap, Forall_forall.
  intros p _. apply Qc_square_nonneg.
Qed.

Lemma Qc_nonneg_pos (x : Qc) : (Qc0 ≤ x)%Qc → x ≠ Qc0 → (Qc0 < x)%Qc.
Proof.
  intros H Hne. destruct (Qcle_lt_or_eq _ _ H) as [Hlt|E]; [done|].
  by destruct Hne.
Qed.

Lemma pearson_range (ps : list (Qc * Qc)) (r : Corr) :
  pearson ps = Some r →
  (Qc0 ≤ corr_sq r)%Qc ∧
  (corr_sign r = -1 ∨ corr_sign r = 0 ∨ corr_sign r = 1) ∧
  (corr_sign r = 0 → corr_sq r = Qc0).
Proof.
  unfold pearson. cbv zeta.
  set (mx := (Qcsum (ps.*1) / _)%Qc). set (my := (Qcsum (ps.*2) / _)%Qc).
  set (sxx := Qcsum ((λ p, (p.1 - mx) * (p.1 - mx))%Qc <$> ps)).
  set (syy := Qcsum ((λ p, (p.2 - my) * (p.2 - my))%Qc <$> ps)).
  set (sxy := Qcsum ((λ p, (p.1 - mx) * (p.2 - my))%Qc <$> ps)).
  destruct (bool_decide (sxx = Qc0)) eqn:Exx; [by cbn [orb]|].
  destruct (bool_decide (syy = Qc0)) eqn:Eyy; [by cbn [orb]|].
  cbn [orb].
  apply bool_decide_eq_false in Exx, Eyy.
  intros [= <-]. cbn [corr_sq corr_sign].
  assert (Hxx : (Qc0 < sxx)%Qc).
  { apply Qc_nonneg_pos; [|done].
    apply (Qcsum_squares_nonneg (λ p, p.1 - mx)%Qc). }
  assert (Hyy : (Qc0 < syy)%Qc).
  { apply Qc_nonneg_pos; [|done].
    apply (Qcsum_squares_nonneg (λ p, p.2 - my)%Qc). }
  split_and!.
  - unfold Qcdiv. apply Qcmult_nonneg_nonneg; [apply Qc_square_nonneg|].
    apply Qclt_le_weak, Qcinv_pos. by apply Qcmult_pos_pos.
  - destruct (Qc_sign sxy); auto.
  - destruct (Qc_sign sxy) eqn:E; [|done..]. intros _.
    apply Qc_sign_Eq in E. rewrite E. unfold Qcdiv, Qc0. ring.
Qed.

(** X19.  The coefficient is always in range: its square lies between
    0 and 1, its sign is one of -1, 0 and 1, and its sign is 0 only when
    the coefficient is. *)
Theorem calculate_correlation_in_range (df1 df2 : option DataFrame) :
  let r := calculate_correlation df1 df2 in
  (Qc0 ≤ corr_sq r)%Qc ∧ (corr_sq r ≤ Qc1)%Qc ∧
  (corr_sign r = -1 ∨ corr_sign r = 0 ∨ corr_sign r = 1) ∧
  (corr_sign r = 0 → corr_sq r = Qc0).
Proof.
  assert (Hzero : (Qc0 ≤ corr_sq corr_zero)%Qc ∧
                  (corr_sq corr_zero ≤ Qc1)%Qc ∧
                  (corr_sign corr_zero = -1 ∨ corr_sign corr_zero = 0 ∨
                   corr_sign corr_zero = 1) ∧
                  (corr_sign corr_zero = 0 → corr_sq corr_zero = Qc0)).
  { split_and!; [done|done|by right; left|done]. }
  cbv zeta. unfold calculate_correlation.
  destruct df1 as [df1|], df2 as [df2|]; [|done..].
  repeat (match goal with |- context [if ?b then _ else _] => destruct b end;
          [exact Hzero|]).
  unfold correlation_of_merged.
  destruct (bool_decide _); [exact Hzero|].
  destruct (bool_decide _); [exact Hzero|].
  destruct (mapM _ _) as [ps|]; [|exact Hzero].
  destruct (pearson ps) as [r|] eqn:Hr; [|exact Hzero].
  apply pearson_range in Hr as (H0 & Hs & Hs0).
  unfold clamp. case_bool_decide as Hc; cbn [corr_sq corr_sign].
  - split_and!; [done|done|done|].
    intros E. apply Hs0 in E. rewrite E in Hc. done.
  - split_and!; [done| |done|done]. by apply Qcnot_lt_le.
Qed.

Lemma merge_on_date_disjoint (l1 l2 : list Row.t) :
  (∀ r1 r2, r1 ∈ l1 → r2 ∈ l2 → Row.date r1 ≠ Row.date r2) →
  merge_on_date l1 l2 = [].
Proof.
  intros Hdis. unfold merge_on_date.
  induction l1 as [|r1 l1 IH]; [done|].
  rewrite bind_cons, IH, app_nil_r.
  2:{ intros r r2 Hr. apply Hdis. by right. }
  assert (H1 : ∀ r2, r2 ∈ l2 → Row.date r1 ≠ Row.date r2)
    by (intros r2; apply Hdis; left).
  clear IH Hdis. induction l2 as [|r2 l2 IH]; [done|].
  rewrite bind_cons, IH by (intros r Hr; apply H1; by right).
  rewrite bool_decide_eq_false_2; [done|]. apply H1. left.
Qed.

(** X20.  Two frames without a date in common have the correlation 0.0. *)
Theorem correlation_without_common_date (df1 df2 : DataFrame) :
  (∀ r1 r2, r1 ∈ rows df1 → r2 ∈ rows df2 → Row.date r1 ≠ Row.date r2) →
  calculate_correlation (Some df1) (Some df2) = corr_zero.
Proof.
  intros Hdis. unfold calculate_correlation.
  repeat (match goal with |- context [if ?b then _ else _] => destruct b end;
          [done|]).
  by rewrite merge_on_date_disjoint.
Qed.

Lemma correlation_without_common_date_witness :
  calculate_correlation (Some (frame_of_bars ten_bars))
                        (Some (frame_of_bars later_bars)) = corr_zero.
Proof.
  apply correlation_without_common_date. intros r1 r2 H1 H2.
  assert (HF : Forall (λ r1, Forall (λ r2, Row.date r1 ≠ Row.date r2)
                               (rows (frame_of_bars later_bars)))
                      (rows (frame_of_bars ten_bars)))
    by (apply (bool_decide_unpack _); vm_compute; exact I).
  exact (proj1 (Forall_forall _ _)
           (proj1 (Forall_forall _ _) HF r1 H1) r2 H2).
Defined.

Lemma merge_row_disjoint (a : Row.t) (l : list Row.t) :
  Row.date a ∉ Row.date <$> l →
  (l ≫= λ r2, if bool_decide (Row.date a = Row.date r2)
              then [(Row.close a, Row.close r2)] else []) = [].
Proof.
  induction l as [|r2 l IH]; [done|]. rewrite fmap_cons, not_elem_of_cons.
  intros [Hne Hnin]. rewrite bind_cons, IH by done.
  by rewrite bool_decide_eq_false_2.
Qed.

Lemma merge_on_date_self (l : list Row.t) :
  NoDup (Row.date <$> l) →
  merge_on_date l l = (λ r, (Row.close r, Row.close r)) <$> l.
Proof.
  unfold merge_on_date. induction l as [|a l IH]; [done|].
  rewrite fmap_cons. intros [Hnin Hnd]%NoDup_cons.
  rewrite !bind_cons, bool_decide_eq_true_2 by done.
  rewrite merge_row_disjoint by done. cbn [app]. rewrite fmap_cons. f_equal.
  rewrite <- IH by done. apply Forall_bind_ext, Forall_forall.
  intros r1 Hr1. rewrite bind_cons, bool_decide_eq_false_2; [done|].
  intros E. apply Hnin. rewrite <- E. by apply list_elem_of_fmap_2.
Qed.

Lemma Qcsum_zero_all (l : list Qc) :
  Forall (λ x, Qc0 ≤ x)%Qc l → Qcsum l = Qc0 → Forall (λ x, x = Qc0) l.
Proof.
  induction 1 as [|x l Hx Hl IH]; [done|]. cbn [Qcsum foldr].
  fold (Qcsum l). intros Hsum.
  pose proof (Qcsum_nonneg l Hl) as Hs.
  assert (Hx0 : x = Qc0).
  { apply Qcle_antisym; [|done]. rewrite <- Hsum.
    rewrite <- (Qcplus_0_r x) at 1. by apply Qcplus_le_mono_l. }
  constructor; [done|]. apply IH. rewrite Hx0 in Hsum.
  by rewrite Qcplus_0_l in Hsum.
Qed.

Lemma Qcsum_all_zero (l : list Qc) :
  Forall (λ x, x = Qc0) l → Qcsum l = Qc0.
Proof.
  induction 1 as [|x l -> Hl IH]; [done|]. cbn [Qcsum foldr].
  fold (Qcsum l). rewrite IH. apply Qcplus_0_l.
Qed.

Lemma Qc_square_zero (x : Qc) : (x * x)%Qc = Qc0 → x = Qc0.
Proof. intros H. by destruct (Qcmult_integral _ _ H). Qed.

Lemma finite_series (l : list fval) :
  Forall (λ x, isfinite x = true) l → ∃ qs, l = Fin <$> qs.
Proof.
  induction 1 as [|x l Hx Hl [qs ->]]; [by exists []|].
  destruct x as [q| | |]; try done. by exists (q :: qs).
Qed.

(** The coefficient of a series with itself, when it is not constant. *)
Lemma pearson_diag (qs : list Qc) (a b : Qc) :
  a ∈ qs → b ∈ qs → a ≠ b →
  pearson ((λ q, (q, q)) <$> qs) = Some {| corr_sign := 1; corr_sq := Qc1 |}.
Proof.
  intros Ha Hb Hab. unfold pearson. cbv zeta.
  rewrite <- !list_fmap_compose. unfold compose. cbn [fst snd].
  rewrite list_fmap_id. rewrite length_fmap.
  set (m := (Qcsum qs / _)%Qc).
  set (s := Qcsum ((λ q, (q - m) * (q - m))%Qc <$> qs)).
  assert (Hs : s ≠ Qc0).
  { intros Hs.
    pose proof (Qcsum_zero_all _
      (proj2 (Forall_fmap _ _ _)
         (proj2 (Forall_forall _ _) (λ q _, Qc_square_nonneg (q - m)))) Hs)
      as Hall.
    rewrite Forall_fmap, Forall_forall in Hall.
    assert (Hm : ∀ q, q ∈ qs → q = m).
    { intros q Hq. apply Hall, Qc_square_zero in Hq.
      replace q with ((q - m) + m)%Qc by ring. rewrite Hq.
      apply Qcplus_0_l. }
    apply Hab. by rewrite (Hm a), (Hm b). }
  rewrite (bool_decide_eq_false_2 (s = Qc0)) by done. cbn [orb].
  assert (Hpos : (Qc0 < s)%Qc).
  { apply Qc_nonneg_pos; [|done].
    apply (Qcsum_squares_nonneg (λ q, q - m)%Qc). }
  f_equal. f_equal.
  - unfold Qc_sign. by rewrite (proj1 (Qcgt_alt s Qc0) Hpos).
  - unfold Qcdiv. apply Qcmult_inv_r. intros E.
    by destruct (Qcmult_integral _ _ E).
Qed.

(** X21.  A frame correlates perfectly with itself: when its dates are
    distinct, its closes finite and not all the same, the coefficient of
    the frame with itself is exactly 1. *)
Theorem correlation_with_itself (df : DataFrame) (r1 r2 : Row.t) :
  has_col "date" df = true →
  has_col "close" df = true →
  NoDup (Row.date <$> rows df) →
  Forall (λ r, isfinite (Row.close r) = true) (rows df) →
  r1 ∈ rows df → r2 ∈ rows df → Row.close r1 ≠ Row.close r2 →
  calculate_correlation (Some df) (Some df)
  = {| corr_sign := 1; corr_sq := Qc1 |}.
Proof.
  intros Hdate Hclose Hnd Hfin Hr1 Hr2 Hne.
  unfold calculate_correlation.
  assert (Hempty : empty df = false).
  { unfold empty. destruct (columns df) eqn:Hc.
    - unfold has_col in Hdate. rewrite Hc in Hdate.
      by apply bool_decide_eq_true_1, elem_of_nil in Hdate.
    - destruct (rows df); [by apply elem_of_nil in Hr1|done]. }
  rewrite Hempty, Hdate, Hclose. cbn [orb negb].
  rewrite merge_on_date_self by done.
  destruct (finite_series (Row.close <$> rows df)) as [qs Hqs];
    [by apply Forall_fmap|].
  assert (Hpairs : (λ r, (Row.close r, Row.close r)) <$> rows df
                   = (λ p : Qc * Qc, (Fin p.1, Fin p.2))
                       <$> ((λ q, (q, q)) <$> qs)).
  { rewrite <- list_fmap_compose.
    change ((λ p : Qc * Qc, (Fin p.1, Fin p.2)) ∘ (λ q, (q, q)))
      with ((λ x : fval, (x, x)) ∘ Fin).
    rewrite list_fmap_compose, <- Hqs, <- list_fmap_compose. done. }
  rewrite Hpairs. clear Hpairs.
  assert (Hin : ∀ r, r ∈ rows df → ∃ q, Row.close r = Fin q ∧ q ∈ qs).
  { intros r Hr.
    assert (Hc : Row.close r ∈ Fin <$> qs)
      by (rewrite <- Hqs; by apply list_elem_of_fmap_2).
    apply list_elem_of_fmap in Hc as (q & ? & ?). by exists q. }
  destruct (Hin _ Hr1) as (a & Ea & Ha).
  destruct (Hin _ Hr2) as (b & Eb & Hb).
  assert (Hab : a ≠ b) by (intros ->; congruence).
  assert (Hlen : (2 ≤ length qs)%nat).
  { destruct qs as [|x [|y qs]]; [by apply elem_of_nil in Ha| |simpl; lia].
    apply list_elem_of_singleton in Ha, Hb. congruence. }
  unfold correlation_of_merged.
  rewrite bool_decide_eq_false_2 by (rewrite !length_fmap; lia).
  rewrite filter_Forall_id
    by (apply Forall_fmap, Forall_forall; by intros [??] _).
  rewrite bool_decide_eq_false_2 by (rewrite !length_fmap; lia).
  rewrite mapM_fmap_Some by by intros [??].
  rewrite (pearson_diag qs a b) by done.
  unfold clamp. cbn [corr_sq].
  rewrite bool_decide_eq_false_2; [done|]. apply Qcle_not_lt, Qcle_refl.
Qed.

Lemma correlation_with_itself_witness :
  calculate_correlation (Some (frame_of_bars ten_bars))
                        (Some (frame_of_bars ten_bars))
  = {| corr_sign := 1; corr_sq := Qc1 |}.
Proof.
  apply (correlation_with_itself (frame_of_bars ten_bars)
           (row_of_bar (demo_bar 1 10 11)) (row_of_bar (demo_bar 2 11 12)));
    [reflexivity | reflexivity | ..];
    apply (bool_decide_unpack _); vm_compute; exact I.
Defined.

Lemma Qc_of_nat_S (n : nat) :
  Q2Qc (inject_Z (Z.of_nat (S n)))
  = (Qc1 + Q2Qc (inject_Z (Z.of_nat n)))%Qc.
Proof.
  unfold Qcplus, Qc1. apply Q2Qc_eq_iff. cbn [this Q2Qc].
  rewrite !Qred_correct, Nat2Z.inj_succ. unfold Z.succ.
  rewrite inject_Z_plus. ring.
Qed.

Lemma Qc_of_nat_nonzero (n : nat) :
  n ≠ 0%nat → Q2Qc (inject_Z (Z.of_nat n)) ≠ Qc0.
Proof.
  intros Hn E. apply Q2Qc_eq_iff in E. unfold Qeq in E. simpl in E. lia.
Qed.

Lemma Qcsum_const (l : list Qc) (q : Qc) :
  Forall (λ x, x = q) l →
  Qcsum l = (Q2Qc (inject_Z (Z.of_nat (length l))) * q)%Qc.
Proof.
  induction 1 as [|x l -> Hl IH].
  - cbn [Qcsum foldr length]. change (Q2Qc (inject_Z (Z.of_nat 0))) with Qc0.
    unfold Qc0. ring.
  - cbn [Qcsum foldr length]. fold (Qcsum l). rewrite IH, Qc_of_nat_S.
    unfold Qc1. ring.
Qed.

(** A series that does not move has no standard deviation, and so no
    coefficient. *)
Lemma pearson_flat (ps : list (Qc * Qc)) (q : Qc) :
  Forall (λ p, p.1 = q) ps → pearson ps = None.
Proof.
  intros Hflat. unfold pearson. cbv zeta.
  set (n := Q2Qc (inject_Z (Z.of_nat (length ps)))).
  set (mx := (Qcsum (ps.*1) / n)%Qc).
  assert (Hxx : Qcsum ((λ p, (p.1 - mx) * (p.1 - mx))%Qc <$> ps) = Qc0).
  { destruct ps as [|p0 ps']; [done|].
    assert (Hmx : mx = q).
    { unfold mx. rewrite (Qcsum_const _ q) by by apply Forall_fmap.
      rewrite length_fmap. fold n. unfold Qcdiv.
      replace (n * q * / n)%Qc with (q * (n * / n))%Qc by ring.
      rewrite Qcmult_inv_r by by apply Qc_of_nat_nonzero.
      apply Qcmult_1_r. }
    apply Qcsum_all_zero, Forall_fmap.
    eapply Forall_impl; [exact Hflat|]. intros p Hp.
    unfold compose. cbn beta in *. rewrite Hp, Hmx. unfold Qc0. ring. }
  by rewrite Hxx, bool_decide_eq_true_2.
Qed.

Lemma merge_on_date_fst (l1 l2 : list Row.t) (c : fval) :
  Forall (λ r, Row.close r = c) l1 →
  Forall (λ p, p.1 = c) (merge_on_date l1 l2).
Proof.
  intros Hflat. apply Forall_forall. intros p Hp. unfold merge_on_date in Hp.
  apply list_elem_of_bind in Hp as (r1 & Hp & Hr1).
  apply list_elem_of_bind in Hp as (r2 & Hp & Hr2).
  rewrite Forall_forall in Hflat.
  case_bool_decide; [|by apply elem_of_nil in Hp].
  apply list_elem_of_singleton in Hp as ->. by apply Hflat.
Qed.

Lemma mapM_finite_pair_fst (l : list (fval * fval)) (ps : list (Qc * Qc))
    (c : fval) :
  Forall (λ p, p.1 = c) l → mapM finite_pair l = Some ps →
  Forall (λ p, Fin p.1 = c) ps.
Proof.
  intros Hflat Hm. apply mapM_Some_1 in Hm.
  apply Forall_forall. intros p Hp.
  apply list_elem_of_lookup in Hp as [i Hi].
  destruct (Forall2_lookup_r _ _ _ _ _ Hm Hi) as ([x y] & Hx & Hxy).
  rewrite Forall_forall in Hflat.
  assert (E : (x, y).1 = c) by by eapply Hflat, list_elem_of_lookup_2.
  destruct x as [a| | |], y as [b| | |]; simplify_eq/=; done.
Qed.

(** X22.  A stock whose close is the same in every row has the
    correlation 0.0 with any other: the coefficient is NaN, for want of a
    standard deviation, and NaN is replaced by 0.0. *)
Theorem correlation_of_flat_series (df1 df2 : DataFrame) (c : fval) :
  Forall (λ r, Row.close r = c) (rows df1) →
  calculate_correlation (Some df1) (Some df2) = corr_zero.
Proof.
  intros Hflat. unfold calculate_correlation.
  repeat (match goal with |- context [if ?b then _ else _] => destruct b end;
          [done|]).
  pose proof (merge_on_date_fst _ (rows df2) _ Hflat) as Hm.
  unfold correlation_of_merged.
  destruct (bool_decide _); [done|].
  destruct (bool_decide _); [done|].
  destruct (mapM _ _) as [ps|] eqn:Hps; [|done].
  apply mapM_finite_pair_fst with (c := c) in Hps.
  2:{ apply Forall_forall. intros p Hp%list_elem_of_filter.
      rewrite Forall_forall in Hm. apply Hm, Hp. }
  destruct ps as [|[a b] ps']; [done|].
  rewrite (pearson_flat _ a); [done|].
  eapply Forall_impl; [exact Hps|]. intros [a' b'] E.
  apply Forall_cons in Hps as [Ea _]. cbn [fst] in *. congruence.
Qed.

Lemma correlation_of_flat_series_witness :
  calculate_correlation (Some (frame_of_bars flat_bars))
                        (Some (frame_of_bars ten_bars)) = corr_zero.
Proof.
  apply (correlation_of_flat_series _ _ (of_Z 5)).
  apply (bool_decide_unpack _). vm_compute. exact I.
Defined.

(** ** The performance metrics *)

Lemma round_nd_zero_2 : round_nd (Fin Qc0) 2 = Fin Qc0.
Proof. apply (bool_decide_unpack _). by vm_compute. Qed.

Lemma flat_return (f : Qc) :
  (Qc0 < f)%Qc →
  fmul (fdiv (fsub (Fin f) (Fin f)) (Fin f)) (of_Z 100) = Fin Qc0.
Proof.
  intros Hf. unfold fsub, fneg, fadd, fdiv.
  assert (Hs : Qc_sign f = Gt) by (by apply Qcgt_alt).
  rewrite Hs. unfold fmul, of_Z. f_equal.
  replace (f + - f)%Qc with Qc0 by (unfold Qc0; ring).
  unfold Qcdiv, Qc0. ring.
Qed.

(** X23.  The metrics of a frame are missing exactly when the frame is
    empty or has no [close] column. *)
Theorem performance_metrics_missing (df : DataFrame) :
  calculate_performance_metrics (Some df) = None ↔
  empty df = true ∨ has_col "close" df = false.
Proof.
  unfold calculate_performance_metrics.
  destruct (empty df) eqn:Hempty; [by split; [left|]|].
  destruct (has_col "close" df) eqn:Hclose; cbn [negb]; [|by split; [right|]].
  destruct (rows df) as [|first rs] eqn:Hrows.
  { unfold empty in Hempty. rewrite Hrows in Hempty.
    by destruct (columns df). }
  destruct (last (first :: rs)) as [latest|] eqn:Hlast.
  - split; [done|]. by intros [|].
  - by apply last_None in Hlast.
Qed.

(** X24.  The total return of a frame with a [close] column.  It is 0
    when the first close is not positive (zero, negative or missing), and 0
    when the last close equals a finite first close; otherwise, for finite
    closes, it is the change from the first close to the last, in percent
    of the first, rounded to two decimals. *)
Theorem performance_metrics_total_return (df : DataFrame)
    (first latest : Row.t) :
  has_col "close" df = true →
  head (rows df) = Some first →
  last (rows df) = Some latest →
  ∃ metrics,
    calculate_performance_metrics (Some df) = Some metrics ∧
    (fgt (Row.close first) (Fin Qc0) = false →
       total_return_pct metrics = Fin Qc0) ∧
    (isfinite (Row.close first) = true →
     Row.close latest = Row.close first →
       total_return_pct metrics = Fin Qc0) ∧
    (∀ f l, Row.close first = Fin f → Row.close latest = Fin l →
       (Qc0 < f)%Qc →
       total_return_pct metrics
       = round_nd (Fin ((l - f) / f * Q2Qc (inject_Z 100))%Qc) 2).
Proof.
  intros Hclose Hfirst Hlast. unfold calculate_performance_metrics.
  destruct (rows df) as [|r0 rs] eqn:Hrows; [done|].
  injection Hfirst as ->.
  assert (Hempty : empty df = false).
  { unfold empty. rewrite Hrows. destruct (columns df) eqn:Hc; [|done].
    unfold has_col in Hclose. rewrite Hc in Hclose.
    by apply bool_decide_eq_true_1, elem_of_nil in Hclose. }
  rewrite Hempty, Hclose, Hlast. cbn [negb].
  eexists. split; [done|]. cbn [total_return_pct]. split_and!.
  - intros ->. apply round_nd_zero_2.
  - intros Hfin ->. destruct (Row.close first) as [f| | |]; try done.
    destruct (fgt (Fin f) (Fin Qc0)) eqn:Hf; [|apply round_nd_zero_2].
    rewrite flat_return; [apply round_nd_zero_2|].
    by apply bool_decide_eq_true_1 in Hf.
  - intros f l -> -> Hf.
    rewrite (bool_decide_eq_true_2 _ Hf : fgt (Fin f) (Fin Qc0) = true).
    unfold fsub, fneg, fadd, fdiv.
    assert (Hs : Qc_sign f = Gt) by (by apply Qcgt_alt).
    by rewrite Hs.
Qed.

Lemma performance_metrics_total_return_witness :
  ∃ metrics,
    calculate_performance_metrics (Some (frame_of_bars ten_bars))
    = Some metrics.
Proof.
  destruct (performance_metrics_total_return (frame_of_bars ten_bars)
              (row_of_bar (demo_bar 1 10 11)) (row_of_bar (demo_bar 10 17 18)))
    as (metrics & E & _); [reflexivity|reflexivity|reflexivity|].
  exists metrics. exact E.
Defined.

(** ** The insights *)

Lemma fabs_fsub_swap (x y : fval) : fabs (fsub x y) = fabs (fsub y x).
Proof.
  destruct x as [a| | |], y as [b| | |]; try done.
  unfold fsub, fneg, fadd, fabs, Qc_sign.
  replace (b + - a)%Qc with (- (a + - b))%Qc by ring.
  set (d := (a + - b)%Qc).
  destruct (d ?= Qc0)%Qc eqn:E.
  - apply Qceq_alt in E. rewrite E.
    change (- Qc0 ?= Qc0)%Qc with Eq. done.
  - apply Qclt_alt in E.
    assert (H : (Qc0 < - d)%Qc).
    { apply Qclt_minus_iff in E. by rewrite Qcplus_0_l in E. }
    apply Qcgt_alt in H. by rewrite H.
  - apply Qcgt_alt in E.
    assert (H : (- d < Qc0)%Qc).
    { apply Qclt_minus_iff. unfold Qc0.
      by replace (Q2Qc 0 + - - d)%Qc with d by ring. }
    rewrite (proj1 (Qclt_alt (- d) Qc0) H). f_equal. ring.
Qed.

(** X25.  The return difference does not depend on the order of the two
    stocks, and the better performer is always one of the two. *)
Theorem insights_of_swapped_stocks (symbol1 symbol2 : string)
    (metrics1 metrics2 : option Metrics) (correlation : Corr) :
  return_difference (insights symbol1 symbol2 metrics1 metrics2 correlation)
  = return_difference (insights symbol2 symbol1 metrics2 metrics1 correlation)
  ∧
  (better_performer
     (insights symbol1 symbol2 metrics1 metrics2 correlation) = symbol1 ∨
   better_performer
     (insights symbol1 symbol2 metrics1 metrics2 correlation) = symbol2).
Proof.
  unfold insights. cbn [return_difference better_performer]. split.
  - by rewrite fabs_fsub_swap.
  - destruct (fgt _ _); auto.
Qed.

(** ** A request made twice *)

Lemma fetch_stock_data_result env w v symbol period :
  (fetch_stock_data env w symbol period).2
  = (fetch_stock_data env v symbol period).2.
Proof.
  unfold fetch_stock_data.
  destruct (history env _ _) as [[|b bars]|]; [|done..].
  destruct (endswith _ _); [|done].
  by destruct (history env symbol _) as [[|b bars]|].
Qed.

Lemma save_new_records_store_only env w v symbol db_records df :
  store w = store v →
  match save_new_records env w symbol db_records df,
        save_new_records env v symbol db_records df with
  | inr w', inr v' => store w' = store v'
  | inl _, inl _ => True
  | _, _ => False
  end.
Proof.
  intros H. unfold save_new_records. rewrite H.
  destruct (mapM _ _) as [[|r recs]|]; [done| |done].
  by destruct (bulk_save _ _ _) as [[]|s].
Qed.

Lemma get_stock_data_store_only env w v symbol days :
  store w = store v →
  store (get_stock_data env w symbol days).1
  = store (get_stock_data env v symbol days).1.
Proof.
  intros H. unfold get_stock_data. rewrite <- H.
  destruct (negb (bool_decide (1 ≤ days ≤ 365))); [done|].
  destruct (bool_decide (symbol = EmptyString)); [done|].
  destruct (bool_decide (strip (upper symbol) = EmptyString)); [done|].
  destruct (negb (bool_decide (strip (upper symbol) ∈ _))); [done|].
  destruct (bool_decide (_ ≠ []) && bool_decide (days ≤ _)); [done|].
  pose proof (fetch_stock_data_result env w v (strip (upper symbol)) None)
    as Hres.
  destruct (fetch_stock_data env w (strip (upper symbol)) None)
    as [wf fetched] eqn:Hw.
  destruct (fetch_stock_data env v (strip (upper symbol)) None)
    as [vf fetched'] eqn:Hv.
  cbn [snd] in Hres. subst fetched'.
  apply fetch_stock_data_logs in Hw as [Hw _], Hv as [Hv _].
  assert (Hf : store wf = store vf) by congruence.
  destruct fetched as [df|]; [|done].
  destruct (empty df); [done|].
  destruct (process_data (Some df)) as [dfp|]; [|done].
  match goal with
  | |- context [save_new_records env wf ?s ?db ?d] =>
      pose proof (save_new_records_store_only env wf vf s db d Hf) as Hs;
      destruct (save_new_records env wf s db d),
               (save_new_records env vf s db d)
  end; done.
Qed.

(** X26.  Asking again changes nothing more: after a request to the
    series endpoint, the same request made again, the surroundings being
    the same, leaves the table as the first request left it, whatever the
    two outcomes. *)
Theorem get_stock_data_twice (env : Env) (w : World) (symbol : string)
    (days : Z) :
  let w1 := (get_stock_data env w symbol days).1 in
  store (get_stock_data env w1 symbol days).1 = store w1.
Proof.
  cbv zeta.
  assert (Hsame : ∀ v, store v = store w →
            (get_stock_data env w symbol days).1 = v →
            store (get_stock_data env v symbol days).1 = store v).
  { intros v Hv Hw.
    rewrite (get_stock_data_store_only env v w) by done. by rewrite Hw. }
  destruct (get_stock_data env w symbol days) as [w1 response] eqn:E.
  cbn [fst] in *. revert E. unfold get_stock_data at 1.
  destruct (negb (bool_decide (1 ≤ days ≤ 365))) eqn:Hdays;
    [intros [= <- _]; by apply Hsame|].
  destruct (bool_decide (symbol = EmptyString)) eqn:Hsym;
    [intros [= <- _]; by apply Hsame|].
  destruct (bool_decide (strip (upper symbol) = EmptyString)) eqn:Hstrip;
    [intros [= <- _]; by apply Hsame|].
  destruct (negb (bool_decide (strip (upper symbol) ∈ _))) eqn:Hknown;
    [intros [= <- _]; by apply Hsame|].
  destruct (bool_decide (_ ≠ []) && bool_decide (days ≤ _));
    [intros [= <- _]; by apply Hsame|].
  destruct (fetch_stock_data env w (strip (upper symbol)) None)
    as [wf fetched] eqn:Hf.
  pose proof (fetch_stock_data_result env w w1 (strip (upper symbol)) None)
    as Hres. rewrite Hf in Hres. cbn [snd] in Hres.
  apply fetch_stock_data_logs in Hf as [Hstore _].
  destruct fetched as [df|]; [|intros [= <- _]; by apply Hsame].
  destruct (empty df) eqn:Hempty; [intros [= <- _]; by apply Hsame|].
  destruct (process_data (Some df)) as [dfp|] eqn:Hp;
    [|intros [= <- _]; by apply Hsame].
  set (trimmed :=
         if bool_decide (days < Z.of_nat (length (rows (sort_values_date dfp))))
         then with_rows (sort_values_date dfp)
                (tail (Z.to_nat days) (rows (sort_values_date dfp)))
         else sort_values_date dfp).
  destruct (save_new_records env wf _ _ trimmed) as [e|ws] eqn:Hs;
    [intros [= <- _]; by apply Hsame|].
  intros [= <- _]. clear Hsame.
  (* the first request wrote; the second finds what it wrote *)
  rewrite <- Hstore in Hs.
  change (merge env wf (strip (upper symbol)) (today env - days) trimmed
          = inr ws) in Hs.
  apply merge_twice in Hs. unfold merge in Hs.
  unfold get_stock_data. rewrite Hdays, Hsym, Hstrip, Hknown.
  destruct (bool_decide (_ ≠ []) && bool_decide (days ≤ _)); [done|].
  destruct (fetch_stock_data env ws (strip (upper symbol)) None)
    as [wf' fetched'] eqn:Hf'.
  cbn [snd] in Hres. subst fetched'.
  apply fetch_stock_data_logs in Hf' as [Hstore' _].
  rewrite Hempty, Hp. fold trimmed.
  pose proof (save_new_records_store_only env wf' ws (strip (upper symbol))
                (query_since (strip (upper symbol)) (today env - days)
                   (store ws)) trimmed Hstore') as Hboth.
  rewrite Hs in Hboth.
  destruct (save_new_records env wf' _ _ trimmed) as [e|ws']; [done|].
  done.
Qed.

(** ** Fetching several stocks *)

Lemma fetch_multiple_stocks_snoc env w symbols symbol period :
  fetch_multiple_stocks env w (symbols ++ [symbol]) period
  = let '(w1, data_dict) := fetch_multiple_stocks env w symbols period in
    let '(w2, df) := fetch_stock_data env w1 symbol period in
    match df with
    | Some df => (w2, <[symbol := df]> data_dict)
    | None => (w2, data_dict)
    end.
Proof.
  unfold fetch_multiple_stocks. rewrite foldl_app. cbn [foldl].
  by destruct (foldl _ _ symbols) as [w1 data_dict].
Qed.

(** X27.  [fetch_multiple_stocks] returns, under each symbol asked for,
    the frame that [fetch_stock_data] gives for it, and no entry for a
    symbol that gives none or was not asked for; no frame in the result is
    empty, and the table is not touched. *)
Theorem fetch_multiple_stocks_entries (env : Env) (w : World)
    (symbols : list string) (period : option string) :
  let result := fetch_multiple_stocks env w symbols period in
  store result.1 = store w ∧
  (∀ symbol,
     result.2 !! symbol
     = if bool_decide (symbol ∈ symbols)
       then (fetch_stock_data env w symbol period).2 else None) ∧
  (∀ symbol df, result.2 !! symbol = Some df →
     symbol ∈ symbols ∧ empty df = false).
Proof.
  cbv zeta.
  assert (Hmain :
    store (fetch_multiple_stocks env w symbols period).1 = store w ∧
    ∀ symbol,
      (fetch_multiple_stocks env w symbols period).2 !! symbol
      = if bool_decide (symbol ∈ symbols)
        then (fetch_stock_data env w symbol period).2 else None).
  { induction symbols as [|s symbols [IHs IHd]] using rev_ind.
    - split; [done|]. intros symbol. cbn. apply lookup_empty.
    - rewrite fetch_multiple_stocks_snoc.
      destruct (fetch_multiple_stocks env w symbols period)
        as [w1 data_dict]. cbn [fst snd] in IHs, IHd.
      pose proof (fetch_stock_data_result env w1 w s period) as Hres.
      destruct (fetch_stock_data env w1 s period) as [w2 fetched] eqn:Hf.
      cbn [snd] in Hres.
      apply fetch_stock_data_logs in Hf as [Hstore _].
      assert (Hs : store (match fetched with
                          | Some df => (w2, <[s := df]> data_dict)
                          | None => (w2, data_dict)
                          end).1 = store w)
        by (destruct fetched; cbn [fst]; congruence).
      split; [done|]. intros symbol.
      destruct (decide (symbol = s)) as [->|Hne].
      + rewrite bool_decide_eq_true_2
          by (apply elem_of_app; right; left).
        rewrite <- Hres. destruct fetched as [df|]; cbn [snd].
        * apply lookup_insert_eq.
        * rewrite IHd. by destruct (bool_decide (s ∈ symbols)).
      + assert (Hd : (match fetched with
                      | Some df => (w2, <[s := df]> data_dict)
                      | None => (w2, data_dict)
                      end).2 !! symbol = data_dict !! symbol).
        { destruct fetched; cbn [snd]; [|done].
          by apply lookup_insert_ne. }
        rewrite Hd, IHd.
        assert (Hiff : symbol ∈ symbols ++ [s] ↔ symbol ∈ symbols).
        { rewrite elem_of_app, list_elem_of_singleton. tauto. }
        by rewrite (bool_decide_ext _ _ Hiff). }
  destruct Hmain as [Hstore Hdict]. split_and!; [done..|].
  intros symbol df. rewrite Hdict.
  case_bool_decide as Hin; [|done]. intros Hdf. split; [done|].
  destruct (fetch_stock_data env w symbol period) as [w' fetched] eqn:Hf.
  cbn [snd] in Hdf. subst fetched. unfold fetch_stock_data in Hf.
  repeat case_match; simplify_eq; done.
Qed.

(** ** The range of a summary *)

(** X28.  In a summary, [high_52w] and [low_52w] are the largest and
    the smallest close stored for the symbol: each is the close of a
    stored row of the symbol, and no close stored for the symbol lies
    above the one or below the other. *)
Theorem get_stock_summary_range (w : World) (symbol : string)
    (body : SummaryBody) (r : StockData.t) :
  get_stock_summary w symbol = Success body →
  r ∈ store w →
  StockData.symbol r = upper symbol →
  defined (StockData.close r) →
  fgt (StockData.close r) (sum_high_52w body) = false ∧
  fgt (sum_low_52w body) (StockData.close r) = false ∧
  (∃ r', r' ∈ store w ∧ StockData.symbol r' = upper symbol ∧
         sum_high_52w body = StockData.close r') ∧
  (∃ r', r' ∈ store w ∧ StockData.symbol r' = upper symbol ∧
         sum_low_52w body = StockData.close r').
Proof.
  unfold get_stock_summary. intros H Hr Hsym Hdef.
  assert (Hq : r ∈ query_all (upper symbol) (store w))
    by by apply elem_of_query_all.
  destruct (query_all (upper symbol) (store w)) as [|r0 rs] eqn:E;
    [by apply elem_of_nil in Hq|].
  rewrite <- E in *. clear r0 rs E.
  cbn [rows columns] in H. destruct (_ || _); [done|].
  unfold series in H. cbn [rows] in H.
  rewrite <- list_fmap_compose in H.
  change (get_col c_close ∘ _) with StockData.close in H.
  destruct (last _); [|done]. injection H as <-.
  cbn [sum_high_52w sum_low_52w].
  assert (Hc : StockData.close r
               ∈ StockData.close <$> query_all (upper symbol) (store w))
    by by apply list_elem_of_fmap_2.
  destruct (series_max_spec _ _ Hc Hdef) as (Hmax & _ & Hub).
  destruct (series_min_spec _ _ Hc Hdef) as (Hmin & _ & Hlb).
  split_and!; [done|done| |].
  - apply list_elem_of_fmap in Hmax as (r' & Hr' & Hin).
    apply elem_of_query_all in Hin as [??]. by exists r'.
  - apply list_elem_of_fmap in Hmin as (r' & Hr' & Hin).
    apply elem_of_query_all in Hin as [??]. by exists r'.
Qed.

Lemma get_stock_summary_range_witness :
  ∃ body, get_stock_summary world_two_days "tcs" = Success body ∧
          fgt (of_Z 10) (sum_high_52w body) = false.
Proof.
  destruct (get_stock_summary world_two_days "tcs") as [body|c] eqn:E;
    [|vm_compute in E; discriminate E].
  exists body. split; [reflexivity|].
  destruct (get_stock_summary_range world_two_days "tcs" body
              (demo_record 99 10 12 9 10) E)
    as (Hhigh & _); [left|reflexivity|reflexivity|].
  exact Hhigh.
Defined.

(** ** What the series endpoint writes *)

Lemma fetch_stock_data_frame env w symbol period w' df :
  fetch_stock_data env w symbol period = (w', Some df) →
  ∃ bars, df = frame_of_bars bars.
Proof.
  unfold fetch_stock_data. intros H.
  repeat case_match; simplify_eq; by eexists.
Qed.

Lemma save_new_records_from env w symbol db_records df w' :
  save_new_records env w symbol db_records df = inr w' →
  ∃ new_records,
    store w' = store w ++ new_records ∧
    Forall (λ r, ∃ row, row ∈ rows df ∧ record_of_row symbol row = Some r)
           new_records.
Proof.
  unfold save_new_records.
  destruct (mapM _ _) as [[|r recs]|] eqn:Hm; [| |done].
  { intros [= <-]. exists []. by rewrite app_nil_r. }
  destruct (bulk_save _ _ _) as [[]|s] eqn:Hb; [| done |].
  { intros [= <-]. exists []. by rewrite app_nil_r. }
  intros [= <-]. apply bulk_save_inr in Hb as (-> & _).
  exists (r :: recs). split; [done|].
  apply mapM_Some_1 in Hm. apply Forall_forall. intros r0 Hr0.
  apply list_elem_of_lookup in Hr0 as [i Hi].
  destruct (Forall2_lookup_r _ _ _ _ _ Hm Hi) as (row & Hrow & Hrec).
  exists row. split; [|done].
  apply list_elem_of_lookup_2 in Hrow.
  by apply list_elem_of_filter in Hrow as [_ Hrow].
Qed.

(** X29.  Every row the series endpoint writes is complete: its close
    is positive, and its [daily_return] and its [volatility_score] are
    there, not NULL. *)
Theorem get_stock_data_writes_complete_rows (env : Env) (w : World)
    (symbol : string) (days : Z) (new_records : list StockData.t) :
  store (get_stock_data env w symbol days).1 = store w ++ new_records →
  Forall (λ r, fgt (StockData.close r) (Fin Qc0) = true ∧
               is_Some (StockData.daily_return r) ∧
               is_Some (StockData.volatility_score r)) new_records.
Proof.
  assert (Hnone : ∀ v : World, store v = store w →
            store v = store w ++ new_records →
            Forall (λ r, fgt (StockData.close r) (Fin Qc0) = true ∧
                         is_Some (StockData.daily_return r) ∧
                         is_Some (StockData.volatility_score r)) new_records).
  { intros v Hv Hnew. rewrite Hv in Hnew.
    rewrite <- (app_nil_r (store w)) in Hnew at 1.
    apply app_inv_head in Hnew as <-. constructor. }
  unfold get_stock_data.
  destruct (negb (bool_decide (1 ≤ days ≤ 365))); [by apply Hnone|].
  destruct (bool_decide (symbol = EmptyString)); [by apply Hnone|].
  destruct (bool_decide (strip (upper symbol) = EmptyString));
    [by apply Hnone|].
  destruct (negb (bool_decide (strip (upper symbol) ∈ _))); [by apply Hnone|].
  destruct (bool_decide (_ ≠ []) && bool_decide (days ≤ _));
    [by apply Hnone|].
  destruct (fetch_stock_data env w (strip (upper symbol)) None)
    as [wf fetched] eqn:Hf.
  pose proof Hf as Hlog. apply fetch_stock_data_logs in Hlog as [Hstore _].
  destruct fetched as [df|]; [|by apply Hnone].
  apply fetch_stock_data_frame in Hf as [bars ->].
  destruct (empty (frame_of_bars bars)); [by apply Hnone|].
  destruct (process_data (Some (frame_of_bars bars))) as [dfp|] eqn:Hp;
    [|by apply Hnone].
  apply process_data_metrics in Hp as (Hdr & Hvs & Hcl); [|done..].
  set (trimmed :=
         if bool_decide (days < Z.of_nat (length (rows (sort_values_date dfp))))
         then with_rows (sort_values_date dfp)
                (tail (Z.to_nat days) (rows (sort_values_date dfp)))
         else sort_values_date dfp).
  assert (Hsub : ∀ row, row ∈ rows trimmed → row ∈ rows dfp).
  { intros row Hrow.
    assert (Hs : row ∈ rows (sort_values_date dfp)).
    { unfold trimmed in Hrow. case_bool_decide; [|done].
      cbn [rows with_rows] in Hrow. unfold tail in Hrow.
      eapply elem_of_sublist; [exact Hrow|apply sublist_drop]. }
    cbn [rows sort_values_date with_rows] in Hs.
    by rewrite sort_by_perm in Hs. }
  destruct (save_new_records env wf _ _ trimmed) as [e|ws] eqn:Hs;
    [by apply Hnone|].
  apply save_new_records_from in Hs as (new & Hws & Hfrom).
  cbn [fst]. rewrite Hws, Hstore. intros <-%app_inv_head.
  eapply Forall_impl; [exact Hfrom|]. intros r (row & Hrow & Hrec).
  apply Hsub in Hrow.
  unfold series in Hdr, Hvs, Hcl. rewrite Forall_fmap, Forall_forall in Hdr, Hvs, Hcl.
  specialize (Hdr _ Hrow). specialize (Hvs _ Hrow). specialize (Hcl _ Hrow).
  cbn in Hdr, Hvs, Hcl. unfold defined in Hdr, Hvs.
  unfold record_of_row in Hrec.
  destruct (if notna (Row.volume row) then _ else _) as [volume|];
    [|done].
  cbn in Hrec. injection Hrec as <-. cbn. unfold nullable.
  rewrite Hdr, Hvs. by split_and!.
Qed.

Lemma get_stock_data_writes_complete_rows_witness :
  Forall (λ r, fgt (StockData.close r) (Fin Qc0) = true ∧
               is_Some (StockData.daily_return r) ∧
               is_Some (StockData.volatility_score r))
         (store (get_stock_data env_tcs world_empty "TCS" 5).1).
Proof.
  apply (get_stock_data_writes_complete_rows env_tcs world_empty "TCS" 5).
  symmetry. apply app_nil_l.
Defined.
